(** * SharpLab code editor component: execution-flow rendering and editor binding

    A shallow embedding of [source/WebApp/components/app-code-edit-stable.ts]:
    the function [renderExecutionFlow] with its helpers
    [createFlowLineEndWidget] and [escapeNewLines], and the connection and
    event wiring done in [mounted]. *)

From Stdlib Require Import ZArith Ascii String Lia.
From Equations Require Import Equations.
From stdpp Require Import base list strings.

Local Open Scope Z_scope.

(** ** Execution steps *)

(** Modelled from the spec: [FlowStep] is declared in [ts/types/results],
    which is not among the sources; a detailed step is
    "[{ line: integer (1-based), skipped: boolean, exception: string|null,
    notes: string|null }]". These are the fields [renderExecutionFlow] reads.
    A text field is an option, [None] standing for both [undefined] and
    [null]; an absent [skipped] is [false]. Line numbers are integers. *)
Record FlowStep := {
  line : Z;
  skipped : bool;
  notes : option string;
  exception : option string
}.

(** An element of [ReadonlyArray<FlowStep|number>]. *)
Inductive Step :=
| Bare (n : Z)
| Detailed (s : FlowStep).

(** JavaScript truthiness of a [string|undefined|null]. *)
Definition truthy (v : option string) : bool :=
  match v with
  | Some s => negb (String.eqb s "")
  | None => false
  end.

(** [(step as FlowStep).skipped], read on a number, is [undefined]. *)
Definition stepSkipped (step : Step) : bool :=
  match step with
  | Bare _ => false
  | Detailed s => skipped s
  end.

Definition stepLine (step : Step) : Z :=
  match step with
  | Bare n => n
  | Detailed s => line s
  end.

Definition stepException (step : Step) : option string :=
  match step with
  | Bare _ => None
  | Detailed s => exception s
  end.

(** ** Jump arrows *)

(** The value of [lastLineNumber! - 1]: the non-null assertion is erased at
    run time, and [undefined - 1] is [NaN]. *)
Inductive number :=
| NaN
| Int (z : Z).

Definition assertMinusOne (v : option Z) : number :=
  match v with
  | Some l => Int (l - 1)
  | None => NaN
  end.

Record JumpArrowOptions := { throw : bool }.

Record JumpArrow := {
  fromLine : number;
  toLine : Z;
  options : JumpArrowOptions
}.

(** The three variables the [for] loop of [renderExecutionFlow] updates. *)
Record ScanState := {
  lastLineNumber : option Z;
  lastException : option string;
  jumpArrows : list JumpArrow
}.

Definition scanStart : ScanState :=
  {| lastLineNumber := None; lastException := None; jumpArrows := [] |}.

(** [(lastLineNumber != null && (lineNumber < lastLineNumber ||
    lineNumber - lastLineNumber > 2)) || lastException], as the [if] sees it. *)
Definition important (st : ScanState) (lineNumber : Z) : bool :=
  match lastLineNumber st with
  | Some l => (lineNumber <? l) || (lineNumber - l >? 2)
  | None => false
  end || truthy (lastException st).

(** One iteration of the loop over [steps]. *)
Definition scanStep (st : ScanState) (step : Step) : ScanState :=
  if stepSkipped step then st
  else
    let lineNumber := stepLine step in
    let exception := stepException step in
    {| lastLineNumber := Some lineNumber;
       lastException := exception;
       jumpArrows :=
         if important st lineNumber
         then jumpArrows st ++
              [ {| fromLine := assertMinusOne (lastLineNumber st);
                   toLine := lineNumber - 1;
                   options := {| throw := truthy (lastException st) |} |} ]
         else jumpArrows st |}.

Definition scan (steps : list Step) : ScanState :=
  fold_left scanStep steps scanStart.

(** The array handed to [cm.setJumpArrows]. *)
Definition computeJumpArrows (steps : list Step) : list JumpArrow :=
  jumpArrows (scan steps).

(** The steps the scan does not skip. *)
Definition retained (steps : list Step) : list Step :=
  List.filter (fun step => negb (stepSkipped step)) steps.

(** The arrow the specification describes for a transition from [prev] to
    [step], both retained. *)
Definition arrowBetween (prev step : Step) : list JumpArrow :=
  if (stepLine step <? stepLine prev)
     || (stepLine step - stepLine prev >? 2)
     || truthy (stepException prev)
  then [ {| fromLine := Int (stepLine prev - 1);
            toLine := stepLine step - 1;
            options := {| throw := truthy (stepException prev) |} |} ]
  else [].

(** What a step adds to the arrows of the steps [pre] before it. *)
Definition arrowAt (pre : list Step) (step : Step) : list JumpArrow :=
  if stepSkipped step then []
  else match last (retained pre) with
       | None => []
       | Some prev => arrowBetween prev step
       end.

(** Retained lines strictly increase, by at most 2, and no step raised. *)
Definition sequential (steps : list Step) : Prop :=
  (forall (i : nat) a b, steps !! i = Some a -> steps !! S i = Some b ->
     stepLine a < stepLine b <= stepLine a + 2)
  /\ Forall (fun step => truthy (stepException step) = false) steps.

(** ** The CodeMirror editor

    CodeMirror is a third-party library; this is the part of an editor that
    [renderExecutionFlow] touches. Markers are objects with identity: they
    live in a heap that only grows, a handle is an index into it, and
    [clear] flips a flag of the marker it is called on. *)

Module CodeMirror.

(** [{ line, ch }] *)
Record Position := { line : Z; ch : nat }.

(** The [span] built by [document.createElement]. *)
Record Element := {
  tagName : string;
  className : string;
  textContent : string
}.

(** A bookmark made by [setBookmark(pos, { widget })]. *)
Record TextMarker := {
  position : Position;
  widget : Element;
  cleared : bool
}.

Definition Handle := nat.

Record Editor := {
  doc : list string;
  jumpArrowLayer : list JumpArrow;
  markers : list TextMarker
}.

(** [cm.getLine(n)]: the text of line [n], [None] ([undefined]) when the
    document has no such line. *)
Definition getLine (cm : Editor) (n : Z) : option string :=
  if 0 <=? n then doc cm !! Z.to_nat n else None.

(** [cm.setBookmark(pos, { widget })]: a new marker, and its handle.
    CodeMirror clips [pos] to the document; the end of an existing line,
    the only position the renderer passes, is left as it is. *)
Definition setBookmark (cm : Editor) (pos : Position) (w : Element)
  : Handle * Editor :=
  (length (markers cm),
   {| doc := doc cm;
      jumpArrowLayer := jumpArrowLayer cm;
      markers := markers cm ++ [ {| position := pos; widget := w; cleared := false |} ] |}).

Definition clearMarker (m : TextMarker) : TextMarker :=
  {| position := position m; widget := widget m; cleared := true |}.

(** [marker.clear()] *)
Definition clear (cm : Editor) (h : Handle) : Editor :=
  {| doc := doc cm;
     jumpArrowLayer := jumpArrowLayer cm;
     markers := alter clearMarker h (markers cm) |}.

(** Modelled from the spec: [setJumpArrows] comes from
    [internal/codemirror/addon-jump-arrows], which is not among the sources;
    "the jump-arrow decoration layer is fully overwritten per call". *)
Definition setJumpArrows (cm : Editor) (arrows : list JumpArrow) : Editor :=
  {| doc := doc cm; jumpArrowLayer := arrows; markers := markers cm |}.

(** The bookmarks a user sees: the markers not cleared, oldest first. *)
Definition shown (ms : list TextMarker) : list (Position * Element) :=
  (fun m => (position m, widget m)) <$> List.filter (fun m => negb (cleared m)) ms.

Definition visible (cm : Editor) : list (Position * Element) :=
  shown (markers cm).

End CodeMirror.

(** ** Annotation widgets *)

Definition CR : ascii := ascii_of_nat 13.
Definition LF : ascii := ascii_of_nat 10.

(** [text.replace(/c/g, by)] for a one-character pattern. *)
Fixpoint replaceAll (c : ascii) (by_ : string) (text : string) : string :=
  match text with
  | EmptyString => EmptyString
  | String a rest =>
      if Ascii.eqb a c then by_ +:+ replaceAll c by_ rest
      else String a (replaceAll c by_ rest)
  end.

Definition escapeNewLines (text : string) : string :=
  replaceAll LF "\n" (replaceAll CR "\r" text).

Inductive PartName := PartNotes | PartException.

#[global] Instance PartName_eq_dec : EqDecision PartName.
Proof. solve_decision. Defined.

(** The string of a part name, as in [['notes', 'exception']]. *)
Definition kindOf (partName : PartName) : string :=
  match partName with
  | PartNotes => "notes"
  | PartException => "exception"
  end.

(** [s[partName]] *)
Definition partOf (partName : PartName) (s : FlowStep) : option string :=
  match partName with
  | PartNotes => notes s
  | PartException => exception s
  end.

Definition createFlowLineEndWidget (contents : list string) (kind : PartName)
  : CodeMirror.Element :=
  {| CodeMirror.tagName := "span";
     CodeMirror.className := "flow-line-end flow-line-end-" +:+ kindOf kind;
     CodeMirror.textContent := String.concat "; " (escapeNewLines <$> contents) |}.

(** [details.map(s => s[partName]).filter(p => p) as ReadonlyArray<string>] *)
Definition partsOf (partName : PartName) (details : list FlowStep) : list string :=
  omap id (List.filter truthy (partOf partName <$> details)).

(** ** Grouping *)

(** Modelled from the spec: [groupToMap] ([ts/helpers/group-to-map]) is not
    among the sources. "Group by [line] (1-based), preserving encounter order
    within each group." The result is a [Map], which [for..of] walks in the
    order its keys were first set; it is kept here as an association list in
    that order. *)
Fixpoint addToGroup {K A} `{EqDecision K} (key : K) (item : A)
    (map : list (K * list A)) : list (K * list A) :=
  match map with
  | [] => [(key, [item])]
  | (k, group) :: rest =>
      if decide (key = k) then (k, group ++ [item]) :: rest
      else (k, group) :: addToGroup key item rest
  end.

Definition groupToMap {A K} `{EqDecision K} (array : list A) (getKey : A -> K)
  : list (K * list A) :=
  fold_left (fun map item => addToGroup (getKey item) item map) array [].

(** [steps.filter(s => typeof s === 'object') as ReadonlyArray<FlowStep>] *)
Definition detailedSteps (steps : list Step) : list FlowStep :=
  omap (fun step => match step with Bare _ => None | Detailed s => Some s end) steps.

(** ** The renderer

    [renderExecutionFlow] works on the editor and on the [bookmarks] array
    that the component keeps between calls. It completes normally or with the
    [TypeError] of reading [length] of [undefined]; the state it leaves is
    kept in both cases. *)

Record World := {
  cm : CodeMirror.Editor;
  bookmarks : list CodeMirror.Handle
}.

Inductive Completion (A : Type) :=
| Normal (a : A)
| TypeError.
Arguments Normal {A} a.
Arguments TypeError {A}.

Definition M (A : Type) : Type := World -> Completion A * World.

Definition ret {A} (a : A) : M A := fun w => (Normal a, w).

Definition bind {A B} (c : M A) (k : A -> M B) : M B :=
  fun w => match c w with
           | (Normal a, w') => k a w'
           | (TypeError, w') => (TypeError, w')
           end.

Declare Scope render_scope.
Delimit Scope render_scope with render.
Notation "x <- c ;; k" := (bind c (fun x => k))
  (at level 100, c at next level, right associativity) : render_scope.
Notation "c ;; k" := (bind c (fun _ => k))
  (at level 100, right associativity) : render_scope.

(** [for (const x of l) body] *)
Fixpoint forOf {A} (l : list A) (body : A -> M unit) : M unit :=
  match l with
  | [] => ret tt
  | x :: rest => bind (body x) (fun _ => forOf rest body)
  end.

(** [array.pop()]: the last element, and the array without it. *)
Definition pop {A} (array : list A) : option (A * list A) :=
  (fun x => (x, removelast array)) <$> last array.

Lemma pop_Some {A} (array : list A) x rest :
  pop array = Some (x, rest) <-> array = rest ++ [x].
Proof.
  unfold pop. split.
  - destruct (last array) as [y|] eqn:E; [|discriminate].
    apply last_Some in E as [l' ->]. rewrite removelast_last.
    simpl. congruence.
  - intros ->. rewrite last_snoc, removelast_last. reflexivity.
Qed.

Lemma pop_length {A} (array : list A) x rest :
  pop array = Some (x, rest) -> (length rest < length array)%nat.
Proof. intros ->%pop_Some. rewrite length_app. simpl. lia. Qed.

(** [while (bookmarks.length > 0) bookmarks.pop()!.clear();] *)
Equations? clearBookmarks (w : World) : World by wf (length (bookmarks w)) lt :=
  clearBookmarks w with Logic.inspect (pop (bookmarks w)) := {
    | exist _ None _ := w
    | exist _ (Some (h, rest)) E :=
        clearBookmarks {| cm := CodeMirror.clear (cm w) h; bookmarks := rest |} }.
Proof. simpl. eapply pop_length. exact E. Qed.

Definition getLineText (n : Z) : M string :=
  fun w => match CodeMirror.getLine (cm w) n with
           | Some text => (Normal text, w)
           | None => (TypeError, w)
           end.

Definition setBookmark (pos : CodeMirror.Position) (widget : CodeMirror.Element)
  : M CodeMirror.Handle :=
  fun w => let '(h, cm') := CodeMirror.setBookmark (cm w) pos widget in
           (Normal h, {| cm := cm'; bookmarks := bookmarks w |}).

(** [bookmarks.push(h)] *)
Definition push (h : CodeMirror.Handle) : M unit :=
  fun w => (Normal tt, {| cm := cm w; bookmarks := bookmarks w ++ [h] |}).

Definition setJumpArrows (arrows : list JumpArrow) : M unit :=
  fun w => (Normal tt, {| cm := CodeMirror.setJumpArrows (cm w) arrows;
                          bookmarks := bookmarks w |}).

Local Open Scope render_scope.

(** The body of the loop over [detailsByLine]. *)
Definition renderLine (entry : Z * list FlowStep) : M unit :=
  let '(lineNumber, details) := entry in
  let cmLineNumber := lineNumber - 1 in
  text <- getLineText cmLineNumber ;;
  let end_ := String.length text in
  forOf [PartNotes; PartException] (fun partName =>
    let parts := partsOf partName details in
    if (length parts =? 0)%nat then ret tt
    else
      let widget := createFlowLineEndWidget parts partName in
      h <- setBookmark {| CodeMirror.line := cmLineNumber; CodeMirror.ch := end_ |} widget ;;
      push h).

Definition renderExecutionFlow (steps : list Step) : M unit :=
  (fun w => (Normal tt, clearBookmarks w)) ;;
  setJumpArrows (computeJumpArrows steps) ;;
  if (length steps =? 0)%nat then ret tt
  else
    let detailsByLine := groupToMap (detailedSteps steps) line in
    forOf detailsByLine renderLine.

Local Close Scope render_scope.

(** ** What a call leaves behind

    The definitions of this part follow the specification's words; the
    theorems below compare them with [renderExecutionFlow]. *)

(** The bookmarks made between [w] and [w'], in the order they were made. *)
Definition created (w w' : World) : list (CodeMirror.Position * CodeMirror.Element) :=
  (fun m => (CodeMirror.position m, CodeMirror.widget m))
    <$> drop (length (CodeMirror.markers (cm w))) (CodeMirror.markers (cm w')).

(** A carriage return becomes the two characters [\r], a line feed [\n]. *)
Definition escapeChar (a : ascii) : string :=
  if Ascii.eqb a CR then "\r"
  else if Ascii.eqb a LF then "\n"
  else String a EmptyString.

Fixpoint escaped (text : string) : string :=
  match text with
  | EmptyString => EmptyString
  | String a rest => escapeChar a +:+ escaped rest
  end.

(** The value a step gives to a field of line [lineNumber]: none for a bare
    step, a step of another line, an absent or an empty value. *)
Definition fieldValue (partName : PartName) (lineNumber : Z) (step : Step)
  : option string :=
  match step with
  | Bare _ => None
  | Detailed s =>
      if decide (line s = lineNumber)
      then match partOf partName s with
           | Some v => if decide (v = EmptyString) then None else Some v
           | None => None
           end
      else None
  end.

(** The values of a field on line [lineNumber], in encounter order. *)
Definition fieldValues (partName : PartName) (lineNumber : Z) (steps : list Step)
  : list string :=
  omap (fieldValue partName lineNumber) steps.

(** The annotation fragment of a field of a line: its values escaped and
    joined with ["; "], placed at the end of the line; no fragment when no
    value is left. *)
Definition fragment (c : CodeMirror.Editor) (partName : PartName)
    (lineNumber : Z) (steps : list Step)
  : list (CodeMirror.Position * CodeMirror.Element) :=
  match fieldValues partName lineNumber steps, CodeMirror.getLine c (lineNumber - 1) with
  | v :: vals, Some text =>
      [ ({| CodeMirror.line := lineNumber - 1; CodeMirror.ch := String.length text |},
         {| CodeMirror.tagName := "span";
            CodeMirror.className := "flow-line-end flow-line-end-" +:+ kindOf partName;
            CodeMirror.textContent := String.concat "; " (escaped <$> v :: vals) |}) ]
  | _, _ => []
  end.

(** Lines in the order of their first occurrence. *)
Fixpoint firstOccurrences (lines : list Z) : list Z :=
  match lines with
  | [] => []
  | l :: rest => l :: filter (fun l' => l' <> l) (firstOccurrences rest)
  end.

(** The lines before the first one that the document lacks. *)
Fixpoint reached (c : CodeMirror.Editor) (lines : list Z) : list Z :=
  match lines with
  | [] => []
  | l :: rest =>
      match CodeMirror.getLine c (l - 1) with
      | Some _ => l :: reached c rest
      | None => []
      end
  end.

(** The lines that carry a detailed step, in the order of first encounter. *)
Definition detailedLines (steps : list Step) : list Z :=
  firstOccurrences (line <$> detailedSteps steps).

(** The annotations of a step sequence on an editor. *)
Definition annotations (c : CodeMirror.Editor) (steps : list Step)
  : list (CodeMirror.Position * CodeMirror.Element) :=
  l ← reached c (detailedLines steps);
  fragment c PartNotes l steps ++ fragment c PartException l steps.

(** Every line with a detailed step is a line of the document. *)
Definition linesExist (c : CodeMirror.Editor) (steps : list Step) : Prop :=
  Forall (fun s => is_Some (CodeMirror.getLine c (line s - 1))) (detailedSteps steps).

(** The column after the last character of line [n] of the document. *)
Definition lineEnd (c : CodeMirror.Editor) (n : Z) : nat :=
  from_option String.length 0%nat (CodeMirror.getLine c n).

(** A fragment of the given field on the given line. *)
Definition isFragment (partName : PartName) (lineNumber : Z)
    (b : CodeMirror.Position * CodeMirror.Element) : bool :=
  (CodeMirror.line b.1 =? lineNumber - 1)
  && String.eqb (CodeMirror.className b.2) ("flow-line-end flow-line-end-" +:+ kindOf partName).

(** ** Auxiliary definitions of the proofs *)

Definition newMarker (b : CodeMirror.Position * CodeMirror.Element)
  : CodeMirror.TextMarker :=
  {| CodeMirror.position := b.1; CodeMirror.widget := b.2; CodeMirror.cleared := false |}.

(** The world after bookmarks were set and their handles pushed, one by one. *)
Definition place (bs : list (CodeMirror.Position * CodeMirror.Element)) (w : World)
  : World :=
  {| cm := {| CodeMirror.doc := CodeMirror.doc (cm w);
              CodeMirror.jumpArrowLayer := CodeMirror.jumpArrowLayer (cm w);
              CodeMirror.markers := CodeMirror.markers (cm w) ++ (newMarker <$> bs) |};
     bookmarks := bookmarks w ++ seq (length (CodeMirror.markers (cm w))) (length bs) |}.

(** What one pass of the loop over the part names makes. *)
Definition partFragment (pos : CodeMirror.Position) (partName : PartName)
    (details : list FlowStep) : list (CodeMirror.Position * CodeMirror.Element) :=
  let parts := partsOf partName details in
  if (length parts =? 0)%nat then []
  else [(pos, createFlowLineEndWidget parts partName)].

(** The markers after [clear] was called on every handle of [hs], last
    handle first. *)
Definition clearAll (hs : list CodeMirror.Handle) (ms : list CodeMirror.TextMarker)
  : list CodeMirror.TextMarker :=
  foldr (alter CodeMirror.clearMarker) ms hs.

(** An editor with three lines and no decoration, and a skipped step on its
    second line that carries an exception text. *)
Definition exampleWorld : World :=
  {| cm := {| CodeMirror.doc := ["a"; "bb"; "ccc"];
              CodeMirror.jumpArrowLayer := [];
              CodeMirror.markers := [] |};
     bookmarks := [] |}.

Definition exampleSkipped : FlowStep :=
  {| line := 2; skipped := true; notes := None; exception := Some "boom" |}.

(** * The editor binding

    What [mounted] sets up: the lazy connection, the callbacks handed to
    [mirrorsharp] in [options.on], the [cursorActivity] listener, and the
    watchers of the component's props. The calls a handler makes on the
    [mirrorsharp] instance and on [$emit] are recorded in the order they
    are made. *)

Module EditorBinding.

Definition LanguageName := string.

(** [ts/types/server-options.ts] *)
Inductive Optimize := release | debug.

Record ServerOptions := {
  x_optimize : Optimize;
  x_target : string;
  x_no_cache : option bool
}.

(** The props that [mounted] reads. *)
Module Props.
Record t := {
  initialText : string;
  initialCached : bool;
  serviceUrl : string;
  language : option LanguageName;
  serverOptions : option ServerOptions
}.
End Props.

(** The [options] object, less its callbacks. *)
Record MirrorSharpOptions := {
  serviceUrl : string;
  language : option LanguageName;
  initialServerOptions : option ServerOptions;
  noInitialConnection : bool
}.

(** The values the callbacks receive are passed on untouched; a slow-update
    result and a connection state, whose types come from [ts/types/results]
    and from the mirrorsharp library, are kept as opaque strings. *)
Definition SlowUpdateResult := string.
Definition MirrorSharpConnectionState := string.

(** The second argument of [$emit]. [GetCursorOffset] is the closure
    [getCursorOffset] of [mounted]. *)
Inductive Payload :=
| NoPayload
| ResultValue (result : SlowUpdateResult)
| ConnectionState (type : MirrorSharpConnectionState)
| GetText (getText : unit -> string)
| Message (message : string)
| GetCursorOffset.

Inductive Call :=
| Create (options : MirrorSharpOptions)   (* mirrorsharp(textarea, options) *)
| Connect                                 (* instance.connect() *)
| SetText (v : string)                    (* instance.setText(v) *)
| SetLanguage (l : LanguageName)          (* instance.setLanguage(l) *)
| SetServerOptions (o : ServerOptions)    (* instance.setServerOptions(o) *)
| Destroy (keepCodeMirror : bool)         (* instance.destroy({ keepCodeMirror }) *)
| Emit (name : string) (payload : Payload). (* this.$emit(name, payload) *)

(** The state the handlers share. *)
Record Component := {
  initialConnectionRequested : bool;
  options : MirrorSharpOptions
}.

Definition mounted (props : Props.t) : Component * list Call :=
  let options :=
    {| serviceUrl := Props.serviceUrl props;
       language := Props.language props;
       initialServerOptions := Props.serverOptions props;
       noInitialConnection := Props.initialCached props |} in
  ({| initialConnectionRequested := negb (Props.initialCached props);
      options := options |},
   [Create options]).

Definition connectIfInitialWasCached (st : Component) : Component * list Call :=
  if initialConnectionRequested st then (st, [])
  else ({| initialConnectionRequested := true; options := options st |}, [Connect]).

Definition recreate (st : Component) : Component * list Call :=
  let options :=
    {| serviceUrl := serviceUrl (options st);
       language := language (options st);
       initialServerOptions := initialServerOptions (options st);
       noInitialConnection := false |} in
  ({| initialConnectionRequested := true; options := options |},
   [Destroy true; Create options]).

(** What the component reacts to: the callbacks of [options.on], the
    [cursorActivity] event of CodeMirror, and the changes of the watched
    props. *)
Inductive Event :=
| slowUpdateWait
| slowUpdateResult (result : SlowUpdateResult)
| connectionChange (type : MirrorSharpConnectionState)
| textChange (getText : unit -> string)
| serverError (message : string)
| cursorActivity
| initialTextChanged (v : string)
| languageChanged (l : LanguageName)
| serverOptionsChanged (o : ServerOptions)
| serviceUrlChanged (u : string)
| highlightedRangeChanged
| executionFlowChanged.

Definition handle (st : Component) (ev : Event) : Component * list Call :=
  match ev with
  | slowUpdateWait => (st, [Emit "slow-update-wait" NoPayload])
  | slowUpdateResult result => (st, [Emit "slow-update-result" (ResultValue result)])
  | connectionChange type => (st, [Emit "connection-change" (ConnectionState type)])
  | textChange getText =>
      let '(st', calls) := connectIfInitialWasCached st in
      (st', calls ++ [Emit "text-change" (GetText getText)])
  | serverError message => (st, [Emit "server-error" (Message message)])
  | cursorActivity => (st, [Emit "cursor-move" GetCursorOffset])
  | initialTextChanged v => (st, [SetText v])
  | languageChanged l =>
      let st1 :=
        {| initialConnectionRequested := initialConnectionRequested st;
           options := {| serviceUrl := serviceUrl (options st);
                         language := Some l;
                         initialServerOptions := initialServerOptions (options st);
                         noInitialConnection := noInitialConnection (options st) |} |} in
      let '(st', calls) := connectIfInitialWasCached st1 in
      (st', SetLanguage l :: calls)
  | serverOptionsChanged o =>
      let st1 :=
        {| initialConnectionRequested := initialConnectionRequested st;
           options := {| serviceUrl := serviceUrl (options st);
                         language := language (options st);
                         initialServerOptions := Some o;
                         noInitialConnection := noInitialConnection (options st) |} |} in
      let '(st', calls) := connectIfInitialWasCached st1 in
      (st', SetServerOptions o :: calls)
  | serviceUrlChanged u =>
      recreate
        {| initialConnectionRequested := initialConnectionRequested st;
           options := {| serviceUrl := u;
                         language := language (options st);
                         initialServerOptions := initialServerOptions (options st);
                         noInitialConnection := noInitialConnection (options st) |} |}
  (* these two decorate the CodeMirror editor (see [renderExecutionFlow])
     and touch neither the instance nor the state above *)
  | highlightedRangeChanged => (st, [])
  | executionFlowChanged => (st, [])
  end.

(** A sequence of events, handled in order. *)
Fixpoint run (st : Component) (events : list Event) : Component * list Call :=
  match events with
  | [] => (st, [])
  | ev :: rest =>
      let '(st1, calls1) := handle st ev in
      let '(st2, calls2) := run st1 rest in
      (st2, calls1 ++ calls2)
  end.

Definition isConnect (c : Call) : bool :=
  match c with Connect => true | _ => false end.

(** The number of calls of [instance.connect()]. *)
Definition connectCalls (calls : list Call) : nat :=
  length (List.filter isConnect calls).

(** A call that opens a connection: [connect()], or making an instance
    that is not told to wait. *)
Definition establishes (c : Call) : bool :=
  match c with
  | Connect => true
  | Create o => negb (noInitialConnection o)
  | _ => false
  end.

(** The notifications among the calls. *)
Definition emitted (calls : list Call) : list (string * Payload) :=
  omap (fun c => match c with Emit name payload => Some (name, payload) | _ => None end) calls.

(** The events that reach [connectIfInitialWasCached]. *)
Definition isTrigger (ev : Event) : bool :=
  match ev with
  | textChange _ | languageChanged _ | serverOptionsChanged _ => true
  | _ => false
  end.

Definition isServiceUrlChange (ev : Event) : bool :=
  match ev with serviceUrlChanged _ => true | _ => false end.

(** No edit and no change of language, server options or service URL. *)
Definition quiet (events : list Event) : Prop :=
  Forall (fun ev => isTrigger ev = false /\ isServiceUrlChange ev = false) events.

(** The lazy connection in the specification's words: in a component made
    with the initial-cached flag set, nothing connects before the first
    edit or change of language or server options, and that event calls
    [connect] exactly once. *)
Definition lazyConnectAsStated (props : Props.t) : Prop :=
  forall pre ev,
    Forall (fun e => isTrigger e = false) pre -> isTrigger ev = true ->
    existsb establishes (run (mounted props).1 pre).2 = false
    /\ connectCalls (handle (run (mounted props).1 pre).1 ev).2 = 1%nat.

(** A component made with the initial-cached flag set. *)
Definition cachedProps : Props.t :=
  {| Props.initialText := "class C {}";
     Props.initialCached := true;
     Props.serviceUrl := "wss://sharplab.example/mirrorsharp";
     Props.language := Some "C#";
     Props.serverOptions := None |}.

End EditorBinding.

(** * Definitions for the further properties *)

(** A carriage return or a line feed. *)
Definition isNewLine (a : ascii) : bool := Ascii.eqb a CR || Ascii.eqb a LF.

Fixpoint hasNewLine (text : string) : bool :=
  match text with
  | EmptyString => false
  | String a rest => isNewLine a || hasNewLine rest
  end.

Fixpoint countNewLines (text : string) : nat :=
  match text with
  | EmptyString => 0
  | String a rest => (if isNewLine a then 1 else 0) + countNewLines rest
  end.

(** ** The highlighted range

    The watcher of [highlightedRange] in [mounted], with the variable
    [currentMarker] it closes over. The markers of [cm.markText] are kept in
    a heap of their own, as the bookmarks are above. *)

Module Highlight.

(** Modelled from the spec: [HighlightedRange] is declared in
    [ts/types/highlighted-range], which is not among the sources;
    "[{ start: Position|integer, end: Position|integer }] where [Position]
    is a structured (line, column) location and integer is a flat character
    offset". *)
Inductive Location :=
| At (pos : CodeMirror.Position)
| Offset (index : Z).

Record HighlightedRange := { start : Location; end_ : Location }.

(** A marker made by [cm.markText(from, to, { className })]. *)
Record RangeMarker := {
  from : CodeMirror.Position;
  to : CodeMirror.Position;
  className : string;
  cleared : bool
}.

Record State := {
  marks : list RangeMarker;
  currentMarker : option nat
}.

Definition clearMarker (m : RangeMarker) : RangeMarker :=
  {| from := from m; to := to m; className := className m; cleared := true |}.

(** The markers that are drawn. *)
Definition live (ms : list RangeMarker) : list RangeMarker :=
  List.filter (fun m => negb (cleared m)) ms.

Section Watcher.

(** [cm.posFromIndex], of the third-party editor. *)
Variable posFromIndex : Z -> CodeMirror.Position.

(** [typeof x === 'object' ? x : cm.posFromIndex(x)] *)
Definition locate (x : Location) : CodeMirror.Position :=
  match x with
  | At pos => pos
  | Offset index => posFromIndex index
  end.

Definition highlighted (range : HighlightedRange) : RangeMarker :=
  {| from := locate (start range); to := locate (end_ range);
     className := "highlighted"; cleared := false |}.

(** The callback of [this.$watch('highlightedRange', ...)]; [None] is an
    [undefined] range. *)
Definition highlightedRangeWatcher (st : State) (range : option HighlightedRange)
  : State :=
  let st1 :=
    match currentMarker st with
    | Some h => {| marks := alter clearMarker h (marks st); currentMarker := None |}
    | None => st
    end in
  match range with
  | None => st1
  | Some r =>
      {| marks := marks st1 ++ [highlighted r];
         currentMarker := Some (length (marks st1)) |}
  end.

End Watcher.

End Highlight.

(** ** The life of the instance *)

Module Lifecycle.

Import EditorBinding.

(** [beforeDestroy]: the instance is destroyed and the wrapper of the editor
    removed from its parent; [wrapper.parentElement] is [null] for a wrapper
    that is not in a document, and the call of [removeChild] then throws.
    The result is the calls made, how the hook completes, and whether the
    wrapper is still attached. *)
Definition beforeDestroy (attached : bool) : list Call * Completion unit * bool :=
  ([Destroy true],
   if attached then Normal tt else TypeError,
   false).

(** The use of the instance that a sequence of calls makes, checked call by
    call. The state is [None] when there is no instance, and else says
    whether the instance was asked to connect; the result is [None] when a
    call makes a second instance, uses one that is not there, or asks a
    second time for a connection. *)
Definition useStep (live : option bool) (c : Call) : option (option bool) :=
  match c, live with
  | Create o, None => Some (Some (negb (noInitialConnection o)))
  | Create _, Some _ => None
  | Connect, Some false => Some (Some true)
  | Connect, _ => None
  | Destroy _, Some _ => Some None
  | Destroy _, None => None
  | SetText _, Some _ | SetLanguage _, Some _ | SetServerOptions _, Some _ => Some live
  | SetText _, None | SetLanguage _, None | SetServerOptions _, None => None
  | Emit _ _, _ => Some live
  end.

Fixpoint use (live : option bool) (calls : list Call) : option (option bool) :=
  match calls with
  | [] => Some live
  | c :: rest =>
      match useStep live c with
      | Some live' => use live' rest
      | None => None
      end
  end.

(** The value of a prop after a sequence of events. *)
Definition latestLanguage (init : option LanguageName) (events : list Event)
  : option LanguageName :=
  fold_left (fun acc ev => match ev with languageChanged l => Some l | _ => acc end)
            events init.

Definition latestServerOptions (init : option ServerOptions) (events : list Event)
  : option ServerOptions :=
  fold_left (fun acc ev => match ev with serverOptionsChanged o => Some o | _ => acc end)
            events init.

Definition latestServiceUrl (init : string) (events : list Event) : string :=
  fold_left (fun acc ev => match ev with serviceUrlChanged u => u | _ => acc end)
            events init.

(** A component made without the initial-cached flag. *)
Definition eagerProps : Props.t :=
  {| Props.initialText := "class C {}";
     Props.initialCached := false;
     Props.serviceUrl := "wss://sharplab.example/mirrorsharp";
     Props.language := Some "C#";
     Props.serverOptions := None |}.

End Lifecycle.

(** * Proofs about the flow renderer *)

(** ** Proofs about the scan *)

Lemma scan_snoc pre step : scan (pre ++ [step]) = scanStep (scan pre) step.
Proof. unfold scan. rewrite fold_left_app. reflexivity. Qed.

Lemma retained_snoc pre step :
  retained (pre ++ [step]) =
  retained pre ++ (if stepSkipped step then [] else [step]).
Proof.
  unfold retained. rewrite List.filter_app. simpl.
  destruct (stepSkipped step); reflexivity.
Qed.

(** The scan variables hold the line and exception of the last retained step. *)
Lemma scan_last pre :
  lastLineNumber (scan pre) = stepLine <$> last (retained pre)
  /\ lastException (scan pre) = last (retained pre) ≫= stepException.
Proof.
  induction pre as [|step pre IH] using rev_ind; [split; reflexivity|].
  rewrite scan_snoc, retained_snoc. unfold scanStep.
  destruct (stepSkipped step); simpl.
  - rewrite app_nil_r. exact IH.
  - rewrite last_snoc. split; reflexivity.
Qed.

Lemma scanStep_arrow pre step :
  jumpArrows (scanStep (scan pre) step) = jumpArrows (scan pre) ++ arrowAt pre step.
Proof.
  unfold scanStep, arrowAt, important, arrowBetween.
  destruct (scan_last pre) as [-> ->].
  destruct (stepSkipped step); simpl; [by rewrite app_nil_r|].
  destruct (last (retained pre)) as [prev|]; simpl.
  - destruct (stepLine step <? stepLine prev),
      (stepLine step - stepLine prev >? 2),
      (truthy (stepException prev));
      simpl; rewrite ?app_nil_r; reflexivity.
  - by rewrite app_nil_r.
Qed.

Lemma computeJumpArrows_snoc pre step :
  computeJumpArrows (pre ++ [step]) = computeJumpArrows pre ++ arrowAt pre step.
Proof. unfold computeJumpArrows. rewrite scan_snoc. apply scanStep_arrow. Qed.

Lemma scanStep_skipped st step : stepSkipped step = true -> scanStep st step = st.
Proof. unfold scanStep. intros ->. reflexivity. Qed.

(** Skipped steps leave the three scan variables as they are. *)
Lemma scan_retained steps : scan steps = scan (retained steps).
Proof.
  induction steps as [|step steps IH] using rev_ind; [reflexivity|].
  rewrite retained_snoc, scan_snoc, IH.
  destruct (stepSkipped step) eqn:E.
  - rewrite app_nil_r. by apply scanStep_skipped.
  - by rewrite scan_snoc.
Qed.

Lemma sequential_snoc rs step :
  sequential (rs ++ [step]) ->
  sequential rs /\ forall prev, last rs = Some prev -> arrowBetween prev step = [].
Proof.
  intros [Hlines Hexc]. apply Forall_app in Hexc as [Hexc _]. split.
  - split; [|exact Hexc]. intros i a b Ha Hb.
    apply (Hlines i); by apply lookup_app_l_Some.
  - intros prev [l' ->]%last_Some.
    assert (Hstep : stepLine prev < stepLine step <= stepLine prev + 2).
    { apply (Hlines (length l')).
      - rewrite <- app_assoc. by apply list_lookup_middle.
      - rewrite lookup_app_r; rewrite length_app; simpl; [|lia].
        by replace (S (length l') - (length l' + 1))%nat with 0%nat by lia. }
    apply Forall_app in Hexc as [_ Hprev]. apply Forall_inv in Hprev. simpl in Hprev.
    unfold arrowBetween. rewrite Hprev.
    destruct (Z.ltb_spec (stepLine step) (stepLine prev)); [lia|].
    destruct (Z.gtb_spec (stepLine step - stepLine prev) 2); [lia|].
    reflexivity.
Qed.

Lemma sequential_no_arrows steps :
  sequential (retained steps) -> computeJumpArrows steps = [].
Proof.
  induction steps as [|step steps IH] using rev_ind; [reflexivity|].
  rewrite retained_snoc, computeJumpArrows_snoc. unfold arrowAt.
  destruct (stepSkipped step).
  - rewrite !app_nil_r. exact IH.
  - intros [Hseq Hlast]%sequential_snoc. rewrite (IH Hseq). simpl.
    destruct (last (retained steps)) as [prev|]; [by apply Hlast|reflexivity].
Qed.

Lemma arrowAt_from pre step :
  Forall (fun arrow => exists z, fromLine arrow = Int z) (arrowAt pre step).
Proof.
  unfold arrowAt, arrowBetween.
  destruct (stepSkipped step); [constructor|].
  destruct (last (retained pre)) as [prev|]; [|constructor].
  destruct (_ || _ || _); repeat constructor. by eexists.
Qed.

(** C1, as the code has it. Scanning the non-skipped steps left to right,
    a step adds an arrow
    exactly when a retained step [prev] precedes it and its line is less
    than that of [prev], or exceeds it by more than 2, or the exception of
    [prev] is truthy; the arrow goes from the line of [prev] minus 1 to the
    step's line minus 1 and is exceptional iff the exception of [prev] is
    truthy ([arrowAt]). So the first retained step adds no arrow, and retained
    lines that strictly increase by at most 2 with no exception give no
    arrow at all. *)
Theorem C1_jump_arrow_rule :
  (forall pre step,
     computeJumpArrows (pre ++ [step]) = computeJumpArrows pre ++ arrowAt pre step)
  /\ (forall pre step, retained pre = [] -> computeJumpArrows (pre ++ [step]) = [])
  /\ (forall steps, sequential (retained steps) -> computeJumpArrows steps = []).
Proof.
  split; [exact computeJumpArrows_snoc|]. split; [|exact sequential_no_arrows].
  intros pre step Hpre. rewrite computeJumpArrows_snoc.
  unfold computeJumpArrows. rewrite (scan_retained pre), Hpre.
  unfold arrowAt. rewrite Hpre. simpl. by destruct (stepSkipped step).
Qed.

Lemma C1_jump_arrow_rule_witness :
  computeJumpArrows [Bare 1; Bare 2; Bare 4; Bare 5] = [].
Proof.
  apply (proj2 (proj2 C1_jump_arrow_rule)). split.
  - intros [|[|[|[|i]]]] a b Ha Hb; simpl in *; simplify_eq; simpl; lia.
  - repeat constructor.
Defined.

(** The examples of the specification. *)
Example arrow_forward_skip :
  computeJumpArrows [Bare 1; Bare 5]
  = [ {| fromLine := Int 0; toLine := 4; options := {| throw := false |} |} ].
Proof. reflexivity. Qed.

Example arrow_after_exception :
  computeJumpArrows
    [Detailed {| line := 3; skipped := false; notes := None; exception := Some "E" |};
     Bare 4]
  = [ {| fromLine := Int 2; toLine := 3; options := {| throw := true |} |} ].
Proof. reflexivity. Qed.

Example arrow_skipped_between :
  computeJumpArrows
    [Bare 1;
     Detailed {| line := 2; skipped := true; notes := None; exception := None |};
     Bare 3]
  = [].
Proof. reflexivity. Qed.

(** The lines compared are those of the retained steps: a skipped step in
    between does not shorten the jump from line 1 to line 5. *)
Example arrow_over_skipped :
  computeJumpArrows
    [Bare 1;
     Detailed {| line := 3; skipped := true; notes := None; exception := None |};
     Bare 5]
  = [ {| fromLine := Int 0; toLine := 4; options := {| throw := false |} |} ].
Proof. reflexivity. Qed.

(** The lines of all the steps, the skipped one included, rise by 2 each
    time and no step raised; yet the scan, which does not see the skipped
    step, goes from line 1 to line 5 and emits an arrow. So the last
    consequence of C1 holds of the retained steps' lines, not of the lines of
    the sequence as given. *)
Lemma C1_skipped_step_between :
  sequential
    [Bare 1;
     Detailed {| line := 3; skipped := true; notes := None; exception := None |};
     Bare 5]
  /\ computeJumpArrows
       [Bare 1;
        Detailed {| line := 3; skipped := true; notes := None; exception := None |};
        Bare 5]
     = [ {| fromLine := Int 0; toLine := 4; options := {| throw := false |} |} ]
  /\ ~ (forall steps, sequential steps -> computeJumpArrows steps = []).
Proof.
  assert (Hseq : sequential
    [Bare 1;
     Detailed {| line := 3; skipped := true; notes := None; exception := None |};
     Bare 5]).
  { split.
    - intros [|[|[|i]]] a b Ha Hb; simpl in *; simplify_eq; simpl; lia.
    - repeat constructor. }
  split; [exact Hseq|]. split; [reflexivity|].
  intros H. specialize (H _ Hseq). discriminate H.
Qed.

(** C8. At every point of the scan a truthy [lastException] was assigned by
    a retained step that assigned [lastLineNumber] as well; so whenever the
    significance test holds, [lastLineNumber] is defined, and no arrow has
    [NaN], the value of [undefined - 1], as its [fromLine]. *)
Theorem C8_last_line_defined (steps : list Step) :
  (truthy (lastException (scan steps)) = true ->
     exists step, last (retained steps) = Some step
       /\ lastException (scan steps) = stepException step
       /\ lastLineNumber (scan steps) = Some (stepLine step))
  /\ (forall lineNumber, important (scan steps) lineNumber = true ->
        exists l, lastLineNumber (scan steps) = Some l
          /\ assertMinusOne (lastLineNumber (scan steps)) = Int (l - 1))
  /\ Forall (fun arrow => fromLine arrow <> NaN) (computeJumpArrows steps).
Proof.
  destruct (scan_last steps) as [Hline Hexc]. split; [|split].
  - rewrite Hexc, Hline.
    destruct (last (retained steps)) as [step|]; [|discriminate].
    intros _. by exists step.
  - intros lineNumber. unfold important. rewrite Hexc, Hline.
    destruct (last (retained steps)) as [step|]; simpl; [|discriminate].
    intros _. by eexists.
  - induction steps as [|step steps IH] using rev_ind; [constructor|].
    rewrite computeJumpArrows_snoc. apply Forall_app. split.
    + apply IH; apply scan_last.
    + eapply Forall_impl; [apply arrowAt_from|].
      intros arrow [z ->]. discriminate.
Qed.

Lemma C8_last_line_defined_witness :
  exists l, lastLineNumber (scan [Detailed {| line := 3; skipped := false; notes := None; exception := Some "E" |}]) = Some l
    /\ assertMinusOne (lastLineNumber (scan [Detailed {| line := 3; skipped := false; notes := None; exception := Some "E" |}])) = Int (l - 1).
Proof.
  apply (proj1 (proj2 (C8_last_line_defined _)) 3). reflexivity.
Defined.

(** ** Proofs about the annotation text *)

Lemma append_String a (s t : string) : String a s +:+ t = String a (s +:+ t).
Proof. reflexivity. Qed.

Lemma append_assoc (s t u : string) : (s +:+ t) +:+ u = s +:+ t +:+ u.
Proof.
  induction s as [|a s IH]; [reflexivity|].
  by rewrite !append_String, IH.
Qed.

Lemma replaceAll_app c by_ s t :
  replaceAll c by_ (s +:+ t) = replaceAll c by_ s +:+ replaceAll c by_ t.
Proof.
  induction s as [|a s IH]; [reflexivity|].
  rewrite append_String. simpl. rewrite IH.
  destruct (Ascii.eqb a c); [by rewrite append_assoc|reflexivity].
Qed.

(** The two replacements in a row are one pass over the characters: the
    text put in for a carriage return holds no line feed. *)
Lemma escapeNewLines_escaped text : escapeNewLines text = escaped text.
Proof.
  unfold escapeNewLines. induction text as [|a text IH]; [reflexivity|].
  simpl. unfold escapeChar. destruct (Ascii.eqb a CR) eqn:Ecr.
  - rewrite replaceAll_app, IH. reflexivity.
  - simpl. rewrite IH. by destruct (Ascii.eqb a LF).
Qed.

(** ** Proofs about the grouping *)

Section Grouping.
Context {A K : Type} `{EqDecision K} (getKey : A -> K).

Lemma groupToMap_snoc array item :
  groupToMap (array ++ [item]) getKey =
  addToGroup (getKey item) item (groupToMap array getKey).
Proof. unfold groupToMap. by rewrite fold_left_app. Qed.

(** On a map with distinct keys, [addToGroup] extends the group of the
    key, or adds a group at the end when the key is new. *)
Lemma addToGroup_fmap (keys : list K) (g : K -> list A) key item :
  NoDup keys ->
  addToGroup key item ((fun k => (k, g k)) <$> keys) =
  ((fun k => (k, if decide (key = k) then g k ++ [item] else g k)) <$> keys)
    ++ (if decide (key ∈ keys) then [] else [(key, [item])]).
Proof.
  induction 1 as [|k keys Hk Hnd IH]; [reflexivity|].
  rewrite !fmap_cons. cbn [addToGroup].
  - destruct (decide (key = k)) as [->|Hne].
    + rewrite decide_True by left. rewrite app_nil_r. f_equal.
      apply list_fmap_ext. intros i k' Hk'. rewrite decide_False; [reflexivity|].
      intros <-. apply Hk. by eapply list_elem_of_lookup_2.
    + rewrite IH. f_equal. destruct (decide (key ∈ keys)) as [Hin|Hin].
      * rewrite decide_True; [reflexivity|]. by right.
      * rewrite decide_False; [reflexivity|].
        intros [?|?]%elem_of_cons; contradiction.
Qed.
End Grouping.

Lemma filter_none {A} (P : A -> Prop) `{forall x, Decision (P x)} (l : list A) :
  (forall x, x ∈ l -> ~ P x) -> filter P l = [].
Proof.
  induction l as [|x l IH]; intros Hl; [reflexivity|].
  rewrite filter_cons_False by (apply Hl; left).
  apply IH. intros y Hy. apply Hl. by right.
Qed.

Lemma firstOccurrences_elem l lines : l ∈ firstOccurrences lines <-> l ∈ lines.
Proof.
  induction lines as [|x lines IH]; [reflexivity|].
  cbn [firstOccurrences]. rewrite !elem_of_cons, list_elem_of_filter, IH.
  destruct (decide (l = x)); tauto.
Qed.

Lemma firstOccurrences_NoDup lines : NoDup (firstOccurrences lines).
Proof.
  induction lines as [|x lines IH]; cbn [firstOccurrences]; constructor.
  - rewrite list_elem_of_filter. tauto.
  - by apply NoDup_filter.
Qed.

Lemma firstOccurrences_snoc lines l :
  firstOccurrences (lines ++ [l]) =
  firstOccurrences lines ++ (if decide (l ∈ lines) then [] else [l]).
Proof.
  induction lines as [|x lines IH]; [reflexivity|].
  rewrite <- app_comm_cons. cbn [firstOccurrences].
  rewrite IH, filter_app, <- app_comm_cons. f_equal. f_equal.
  destruct (decide (l ∈ lines)) as [Hin|Hin].
  - rewrite decide_True by (by right). reflexivity.
  - destruct (decide (l = x)) as [->|Hne].
    + rewrite decide_True by left. rewrite filter_cons_False; [reflexivity|].
      tauto.
    + rewrite decide_False by (intros [?|?]%elem_of_cons; contradiction).
      by rewrite filter_cons_True.
Qed.

(** The map of the detailed steps by line: one group per line, in the order
    the lines are first met, each with the steps of its line in order. *)
Lemma groupToMap_line (details : list FlowStep) :
  groupToMap details line =
  (fun l => (l, filter (fun s => line s = l) details))
    <$> firstOccurrences (line <$> details).
Proof.
  induction details as [|s details IH] using rev_ind; [reflexivity|].
  rewrite groupToMap_snoc, IH, addToGroup_fmap by apply firstOccurrences_NoDup.
  rewrite (fmap_app line). change (line <$> [s]) with [line s].
  rewrite firstOccurrences_snoc, fmap_app. f_equal.
  - apply list_fmap_ext. intros i l Hl. f_equal.
    rewrite filter_app. destruct (decide (line s = l)) as [E|E].
    + by rewrite filter_cons_True.
    + rewrite filter_cons_False by done. by rewrite app_nil_r.
  - destruct (decide (line s ∈ firstOccurrences (line <$> details))) as [Hin|Hin];
      rewrite firstOccurrences_elem in Hin.
    + by rewrite decide_True.
    + rewrite decide_False by done. simpl. f_equal. f_equal.
      rewrite filter_app, filter_cons_True by done.
      rewrite filter_none; [reflexivity|].
      intros s' Hs' Hline. apply Hin.
      rewrite <- Hline. by apply list_elem_of_fmap_2.
Qed.

(** ** Proofs about the renderer *)

Lemma place_nil w : place [] w = w.
Proof.
  destruct w as [[d a m] b]. unfold place. simpl. by rewrite !app_nil_r.
Qed.

Lemma place_app bs1 bs2 w : place (bs1 ++ bs2) w = place bs2 (place bs1 w).
Proof.
  unfold place. simpl. f_equal.
  - f_equal. by rewrite fmap_app, app_assoc.
  - rewrite !length_app, length_fmap, seq_app, app_assoc. reflexivity.
Qed.

Lemma place_doc bs w : CodeMirror.doc (cm (place bs w)) = CodeMirror.doc (cm w).
Proof. reflexivity. Qed.

Lemma bookmark_place pos widget w :
  bind (setBookmark pos widget) push w = (Normal tt, place [(pos, widget)] w).
Proof. reflexivity. Qed.

Lemma partStep_place pos partName details w :
  (let parts := partsOf partName details in
   if (length parts =? 0)%nat then ret tt
   else bind (setBookmark pos (createFlowLineEndWidget parts partName)) push) w
  = (Normal tt, place (partFragment pos partName details) w).
Proof.
  unfold partFragment. simpl. destruct (length _ =? 0)%nat.
  - by rewrite place_nil.
  - apply bookmark_place.
Qed.

Lemma renderLine_place lineNumber details w :
  renderLine (lineNumber, details) w =
  match CodeMirror.getLine (cm w) (lineNumber - 1) with
  | Some text =>
      let pos := {| CodeMirror.line := lineNumber - 1;
                    CodeMirror.ch := String.length text |} in
      (Normal tt,
       place (partFragment pos PartNotes details
              ++ partFragment pos PartException details) w)
  | None => (TypeError, w)
  end.
Proof.
  unfold renderLine, getLineText. unfold bind at 1.
  destruct (CodeMirror.getLine (cm w) (lineNumber - 1)) as [text|]; [|reflexivity].
  cbn [forOf]. unfold bind at 1. rewrite partStep_place.
  unfold bind at 1. rewrite partStep_place. unfold ret.
  by rewrite place_app.
Qed.

Lemma getLine_doc c c' n :
  CodeMirror.doc c = CodeMirror.doc c' -> CodeMirror.getLine c n = CodeMirror.getLine c' n.
Proof. unfold CodeMirror.getLine. by intros ->. Qed.

Lemma truthy_Some v : truthy (Some v) = if decide (v = EmptyString) then false else true.
Proof.
  simpl. destruct (String.eqb_spec v ""); [by rewrite decide_True|by rewrite decide_False].
Qed.

(** The parts of a group are the values of the field on the group's line. *)
Lemma partsOf_fieldValues partName lineNumber steps :
  partsOf partName (filter (fun s => line s = lineNumber) (detailedSteps steps))
  = fieldValues partName lineNumber steps.
Proof.
  unfold partsOf, fieldValues.
  induction steps as [|[n|s] steps IH]; [reflexivity|exact IH|].
  cbn [detailedSteps omap list_omap fieldValue]. fold (detailedSteps steps).
  fold (omap (fieldValue partName lineNumber) steps).
  destruct (decide (line s = lineNumber)) as [E|E].
  - rewrite filter_cons_True by done. rewrite fmap_cons. cbn [List.filter].
    destruct (partOf partName s) as [v|]; [|exact IH].
    rewrite truthy_Some. destruct (decide (v = "")); [exact IH|].
    cbn [omap list_omap]. simpl id. by rewrite <- IH.
  - rewrite filter_cons_False by done. exact IH.
Qed.

Lemma partFragment_fragment c partName lineNumber steps text :
  CodeMirror.getLine c (lineNumber - 1) = Some text ->
  partFragment {| CodeMirror.line := lineNumber - 1; CodeMirror.ch := String.length text |}
    partName (filter (fun s => line s = lineNumber) (detailedSteps steps))
  = fragment c partName lineNumber steps.
Proof.
  intros Htext. unfold partFragment, fragment. cbv zeta.
  rewrite partsOf_fieldValues, Htext.
  destruct (fieldValues partName lineNumber steps) as [|v vals]; [reflexivity|].
  cbn [length Nat.eqb]. unfold createFlowLineEndWidget. do 4 f_equal.
  apply list_fmap_ext. intros ? ? ?. apply escapeNewLines_escaped.
Qed.

Lemma forOf_renderLine c steps (lines : list Z) w :
  CodeMirror.doc (cm w) = CodeMirror.doc c ->
  forOf ((fun l => (l, filter (fun s => line s = l) (detailedSteps steps))) <$> lines)
        renderLine w
  = (if decide (Forall (fun l => is_Some (CodeMirror.getLine c (l - 1))) lines)
     then Normal tt else TypeError,
     place (l ← reached c lines;
            fragment c PartNotes l steps ++ fragment c PartException l steps) w).
Proof.
  revert w. induction lines as [|l lines IH]; intros w Hdoc.
  - rewrite decide_True by constructor. cbn [fmap list_fmap forOf reached].
    change (place _ w) with (place [] w). by rewrite place_nil.
  - rewrite fmap_cons. cbn [forOf reached]. unfold bind at 1.
    rewrite renderLine_place, (getLine_doc _ c) by done.
    destruct (CodeMirror.getLine c (l - 1)) as [text|] eqn:Htext.
    + cbv beta iota zeta. rewrite IH by done.
      rewrite !(partFragment_fragment c) by done.
      rewrite bind_cons, !place_app. f_equal.
      destruct (decide (Forall _ lines)) as [Hall|Hall].
      * rewrite decide_True; [reflexivity|]. constructor; [by eexists|done].
      * rewrite decide_False; [reflexivity|]. by intros [_ ?]%Forall_cons_1.
    + simpl. rewrite place_nil. rewrite decide_False; [reflexivity|].
      intros [[? ?] ?]%Forall_cons_1. congruence.
Qed.

Lemma pop_None {A} (array : list A) : pop array = None -> array = [].
Proof.
  unfold pop. destruct (last array) eqn:E; [discriminate|].
  intros _. by apply last_None.
Qed.

(** The loop ends with an empty array and every marker of the array cleared. *)
Lemma clearBookmarks_spec w :
  clearBookmarks w =
  {| cm := {| CodeMirror.doc := CodeMirror.doc (cm w);
              CodeMirror.jumpArrowLayer := CodeMirror.jumpArrowLayer (cm w);
              CodeMirror.markers := clearAll (bookmarks w) (CodeMirror.markers (cm w)) |};
     bookmarks := [] |}.
Proof.
  funelim (clearBookmarks w);
    lazymatch goal with
    | Hb : pop _ = None |- _ =>
        pose proof (pop_None _ Hb) as Hnil; clear - Hnil;
        destruct w as [[d a m] b]; simpl in *; by subst
    | Hb : pop _ = Some _, IH : clearBookmarks _ = {| cm := _; bookmarks := _ |} |- _ =>
        pose proof (proj1 (pop_Some _ _ _) Hb) as Hsnoc; rewrite IH; simpl;
        rewrite Hsnoc;
        unfold clearAll; by rewrite foldr_snoc
    end.
Qed.

Lemma clearAll_length hs ms : length (clearAll hs ms) = length ms.
Proof.
  unfold clearAll. induction hs as [|h hs IH]; [reflexivity|].
  simpl. by rewrite length_alter.
Qed.

Lemma linesExist_detailedLines c steps :
  Forall (fun l => is_Some (CodeMirror.getLine c (l - 1))) (detailedLines steps)
  <-> linesExist c steps.
Proof.
  unfold linesExist, detailedLines. rewrite !Forall_forall. split.
  - intros H s Hs. apply H, firstOccurrences_elem. by apply list_elem_of_fmap_2.
  - intros H l [s [-> Hs]]%firstOccurrences_elem%list_elem_of_fmap. by apply H.
Qed.

(** The renderer in one equation: how it completes, and the world it leaves. *)
Lemma renderExecutionFlow_spec steps w :
  renderExecutionFlow steps w =
  (if decide (linesExist (cm w) steps) then Normal tt else TypeError,
   {| cm := {| CodeMirror.doc := CodeMirror.doc (cm w);
               CodeMirror.jumpArrowLayer := computeJumpArrows steps;
               CodeMirror.markers :=
                 clearAll (bookmarks w) (CodeMirror.markers (cm w))
                 ++ (newMarker <$> annotations (cm w) steps) |};
      bookmarks := seq (length (CodeMirror.markers (cm w)))
                       (length (annotations (cm w) steps)) |}).
Proof.
  unfold renderExecutionFlow. unfold bind at 1. rewrite clearBookmarks_spec.
  unfold bind at 1, setJumpArrows at 1. cbn [cm bookmarks].
  destruct steps as [|step steps].
  - cbn [length Nat.eqb]. unfold ret, annotations, CodeMirror.setJumpArrows. simpl.
    by rewrite app_nil_r.
  - cbn [length Nat.eqb]. cbv zeta. rewrite groupToMap_line.
    rewrite (forOf_renderLine (cm w)) by reflexivity.
    f_equal.
    + apply decide_ext, linesExist_detailedLines.
    + unfold place, annotations, detailedLines, CodeMirror.setJumpArrows. simpl.
      by rewrite clearAll_length.
Qed.

Lemma created_spec steps w :
  created w (renderExecutionFlow steps w).2 = annotations (cm w) steps.
Proof.
  rewrite renderExecutionFlow_spec. unfold created. simpl.
  rewrite drop_app_length' by (by rewrite clearAll_length).
  rewrite <- list_fmap_compose. rewrite <- (list_fmap_id (annotations _ _)) at 2.
  apply list_fmap_ext. by intros ? [? ?] ?.
Qed.

Lemma reached_all c lines :
  Forall (fun l => is_Some (CodeMirror.getLine c (l - 1))) lines ->
  reached c lines = lines.
Proof.
  induction 1 as [|l lines [text Hl] _ IH]; [reflexivity|].
  cbn [reached]. by rewrite Hl, IH.
Qed.

Lemma annotations_complete c steps :
  linesExist c steps ->
  annotations c steps =
  (l ← detailedLines steps;
   fragment c PartNotes l steps ++ fragment c PartException l steps).
Proof.
  intros H%linesExist_detailedLines. unfold annotations. by rewrite reached_all.
Qed.

Lemma detailedSteps_elem s steps : s ∈ detailedSteps steps <-> Detailed s ∈ steps.
Proof.
  unfold detailedSteps. rewrite list_elem_of_omap. split.
  - intros [[n|s'] [Hin Heq]]; [discriminate|]. by injection Heq as ->.
  - intros Hin. by exists (Detailed s).
Qed.

Lemma detailedLines_elem l steps :
  l ∈ detailedLines steps <-> exists s, Detailed s ∈ steps /\ line s = l.
Proof.
  unfold detailedLines. rewrite firstOccurrences_elem, list_elem_of_fmap.
  split; intros [s [? ?]]; exists s; by rewrite ?detailedSteps_elem in *.
Qed.

(** A line without detailed steps has no values, for either field. *)
Lemma fieldValues_absent partName l steps :
  l ∉ detailedLines steps -> fieldValues partName l steps = [].
Proof.
  intros Hl. unfold fieldValues.
  destruct (omap _ steps) as [|v vals] eqn:E; [reflexivity|].
  assert (Hv : v ∈ omap (fieldValue partName l) steps) by (rewrite E; left).
  apply list_elem_of_omap in Hv as [[n|s] [Hin Hval]]; [discriminate|].
  simpl in Hval. destruct (decide (line s = l)); [|discriminate].
  destruct Hl. apply detailedLines_elem. by exists s.
Qed.

Lemma fieldValues_elem partName s v steps :
  Detailed s ∈ steps -> partOf partName s = Some v -> v <> EmptyString ->
  v ∈ fieldValues partName (line s) steps.
Proof.
  intros Hin Hpart Hv. apply list_elem_of_omap. exists (Detailed s).
  split; [done|]. simpl. rewrite decide_True by done.
  rewrite Hpart. by rewrite decide_False.
Qed.

Lemma filter_fragment c p q L l steps :
  List.filter (isFragment p L) (fragment c q l steps) =
  if decide (l = L /\ q = p) then fragment c q l steps else [].
Proof.
  unfold fragment.
  destruct (fieldValues q l steps) as [|v vals]; [by destruct (decide _)|].
  destruct (CodeMirror.getLine c (l - 1)) as [text|]; [|by destruct (decide _)].
  cbn [List.filter]. unfold isFragment. cbn [fst snd CodeMirror.line CodeMirror.className].
  destruct (Z.eqb_spec (l - 1) (L - 1)) as [E|E].
  - assert (l = L) as -> by lia.
    destruct p, q; cbn [andb].
    + rewrite decide_True by done. reflexivity.
    + rewrite decide_False by (intros [_ ?]; discriminate). reflexivity.
    + rewrite decide_False by (intros [_ ?]; discriminate). reflexivity.
    + rewrite decide_True by done. reflexivity.
  - rewrite decide_False; [reflexivity|]. intros [-> _]. by apply E.
Qed.

Lemma filter_fragments c p L steps (lines : list Z) :
  NoDup lines ->
  List.filter (isFragment p L)
    (l ← lines; fragment c PartNotes l steps ++ fragment c PartException l steps)
  = if decide (L ∈ lines) then fragment c p L steps else [].
Proof.
  induction 1 as [|l lines Hl Hnd IH]; [reflexivity|].
  rewrite bind_cons, !List.filter_app, IH, !filter_fragment.
  destruct (decide (l = L)) as [->|Hne].
  - rewrite (decide_True (P := L ∈ L :: lines)) by left.
    rewrite (decide_False (P := L ∈ lines)) by done. rewrite app_nil_r.
    destruct p.
    + rewrite decide_True by done.
      rewrite decide_False by (intros [_ ?]; discriminate). by rewrite app_nil_r.
    + rewrite decide_False by (intros [_ ?]; discriminate).
      by rewrite decide_True.
  - rewrite !(decide_False (P := l = L /\ _)) by (by intros [? _]).
    simpl. destruct (decide (L ∈ lines)) as [Hin|Hin].
    + rewrite decide_True; [reflexivity|]. by right.
    + rewrite decide_False; [reflexivity|].
      intros [?|?]%elem_of_cons; [congruence|contradiction].
Qed.

Lemma render_Normal steps w w' :
  renderExecutionFlow steps w = (Normal tt, w') ->
  linesExist (cm w) steps /\ w' = (renderExecutionFlow steps w).2.
Proof.
  intros H. split; [|by rewrite H].
  rewrite renderExecutionFlow_spec in H.
  destruct (decide (linesExist (cm w) steps)); [done|discriminate].
Qed.

Lemma clearMarker_idemp m :
  CodeMirror.clearMarker (CodeMirror.clearMarker m) = CodeMirror.clearMarker m.
Proof. reflexivity. Qed.

Lemma clearAll_lookup hs ms (h : nat) :
  clearAll hs ms !! h =
  if decide (h ∈ hs) then CodeMirror.clearMarker <$> ms !! h else ms !! h.
Proof.
  unfold clearAll. induction hs as [|h' hs IH].
  - rewrite decide_False; [reflexivity|]. by intros ?%elem_of_nil.
  - cbn [foldr]. destruct (decide (h' = h)) as [->|Hne].
    + rewrite list_lookup_alter_eq, IH.
      rewrite (decide_True (P := h ∈ h :: hs)) by left.
      destruct (decide (h ∈ hs)); [|reflexivity].
      by destruct (ms !! h).
    + rewrite list_lookup_alter_ne, IH by done.
      destruct (decide (h ∈ hs)) as [Hin|Hin].
      * rewrite decide_True; [reflexivity|]. by right.
      * rewrite decide_False; [reflexivity|].
        intros [?|?]%elem_of_cons; [congruence|contradiction].
Qed.

(** Clearing the markers made last leaves the older ones as they are. *)
Lemma clearAll_seq (old new : list CodeMirror.TextMarker) :
  clearAll (seq (length old) (length new)) (old ++ new)
  = old ++ (CodeMirror.clearMarker <$> new).
Proof.
  revert old. induction new as [|m new IH]; intros old; [reflexivity|].
  cbn [length seq]. unfold clearAll in *. cbn [foldr].
  specialize (IH (old ++ [m])).
  rewrite length_app, <- app_assoc in IH. simpl in IH.
  rewrite Nat.add_1_r in IH. rewrite IH. rewrite <- app_assoc.
  rewrite <- (Nat.add_0_r (length old)) at 1. by rewrite alter_app_r.
Qed.

Lemma shown_app old new :
  CodeMirror.shown (old ++ new) = CodeMirror.shown old ++ CodeMirror.shown new.
Proof. unfold CodeMirror.shown. by rewrite List.filter_app, fmap_app. Qed.

Lemma shown_cleared ms : CodeMirror.shown (CodeMirror.clearMarker <$> ms) = [].
Proof. induction ms as [|m ms IH]; [reflexivity|exact IH]. Qed.

Lemma shown_new bs : CodeMirror.shown (newMarker <$> bs) = bs.
Proof.
  induction bs as [|[pos widget] bs IH]; [reflexivity|].
  unfold CodeMirror.shown in *. rewrite fmap_cons. cbn [List.filter].
  unfold newMarker at 1. cbn [CodeMirror.cleared negb]. rewrite fmap_cons, IH.
  reflexivity.
Qed.

Lemma reached_doc c c' lines :
  CodeMirror.doc c = CodeMirror.doc c' -> reached c lines = reached c' lines.
Proof.
  intros Hdoc. induction lines as [|l lines IH]; [reflexivity|].
  cbn [reached]. by rewrite IH, (getLine_doc c c').
Qed.

(** The annotations depend on the editor through its document alone. *)
Lemma annotations_doc c c' steps :
  CodeMirror.doc c = CodeMirror.doc c' -> annotations c steps = annotations c' steps.
Proof.
  intros Hdoc. unfold annotations. rewrite (reached_doc c c') by done.
  apply list_bind_ext; [|reflexivity]. intros l.
  unfold fragment. by rewrite (getLine_doc c c').
Qed.

Lemma linesExist_doc c c' steps :
  CodeMirror.doc c = CodeMirror.doc c' -> linesExist c steps <-> linesExist c' steps.
Proof.
  intros Hdoc. unfold linesExist. apply Forall_iff. intros s.
  by rewrite (getLine_doc c c').
Qed.

(** ** The renderer's properties *)

(** C2. A skipped step changes none of the scan variables and the arrows
    are those of the sequence without its skipped steps; yet a skipped
    detailed step is grouped with its line, and the non-empty notes or
    exception text it carries is one of the values joined in the fragment
    made for that field at the end of its line. *)
Theorem C2_skipped_steps :
  (forall pre step, stepSkipped step = true -> scan (pre ++ [step]) = scan pre)
  /\ (forall steps, computeJumpArrows steps = computeJumpArrows (retained steps))
  /\ (forall steps w w' s partName v,
        renderExecutionFlow steps w = (Normal tt, w') ->
        Detailed s ∈ steps -> skipped s = true ->
        partOf partName s = Some v -> v <> EmptyString ->
        exists vals text,
          v ∈ vals
          /\ ({| CodeMirror.line := line s - 1; CodeMirror.ch := String.length text |},
              {| CodeMirror.tagName := "span";
                 CodeMirror.className := "flow-line-end flow-line-end-" +:+ kindOf partName;
                 CodeMirror.textContent := String.concat "; " (escaped <$> vals) |})
             ∈ created w w').
Proof.
  split; [|split].
  - intros pre step Hskip. rewrite scan_snoc. by apply scanStep_skipped.
  - intros steps. unfold computeJumpArrows. by rewrite <- scan_retained.
  - intros steps w w' s partName v [Hlines ->]%render_Normal Hin _ Hpart Hv.
    rewrite created_spec, annotations_complete by done.
    pose proof (fieldValues_elem partName s v steps Hin Hpart Hv) as Hval.
    assert (Hline : is_Some (CodeMirror.getLine (cm w) (line s - 1))).
    { unfold linesExist in Hlines. rewrite Forall_forall in Hlines.
      by apply Hlines, detailedSteps_elem. }
    destruct Hline as [text Htext].
    exists (fieldValues partName (line s) steps), text. split; [done|].
    apply list_elem_of_bind. exists (line s). split.
    + assert (Hfrag : forall b, b ∈ fragment (cm w) partName (line s) steps ->
        b ∈ fragment (cm w) PartNotes (line s) steps
            ++ fragment (cm w) PartException (line s) steps).
      { intros b Hb. apply elem_of_app. destruct partName; [by left|by right]. }
      apply Hfrag. unfold fragment. rewrite Htext.
      destruct (fieldValues partName (line s) steps) as [|v' vals];
        [by apply elem_of_nil in Hval|]. left.
    + apply detailedLines_elem. by exists s.
Qed.

Lemma C2_skipped_steps_witness :
  exists vals text,
    "boom" ∈ vals
    /\ ({| CodeMirror.line := line exampleSkipped - 1; CodeMirror.ch := String.length text |},
        {| CodeMirror.tagName := "span";
           CodeMirror.className := "flow-line-end flow-line-end-" +:+ kindOf PartException;
           CodeMirror.textContent := String.concat "; " (escaped <$> vals) |})
       ∈ created exampleWorld
           (renderExecutionFlow [Bare 1; Detailed exampleSkipped; Bare 3] exampleWorld).2.
Proof.
  apply (proj2 (proj2 C2_skipped_steps)
           [Bare 1; Detailed exampleSkipped; Bare 3] exampleWorld _ exampleSkipped).
  - reflexivity.
  - right. left.
  - reflexivity.
  - reflexivity.
  - discriminate.
Defined.

(** C3. When the renderer returns, the bookmarks it made for a field of a
    line are: none when the detailed steps of that line have no non-empty
    value for the field, and otherwise the one fragment whose text is those
    values, in encounter order, each with its carriage returns and line
    feeds replaced by [\r] and [\n], joined with ["; "] ([fragment]).
    Bare steps give no value: the annotations are those of the detailed
    steps alone. *)
Theorem C3_annotation_fragments :
  (forall steps w w' partName lineNumber,
     renderExecutionFlow steps w = (Normal tt, w') ->
     List.filter (isFragment partName lineNumber) (created w w')
     = match fieldValues partName lineNumber steps with
       | [] => []
       | vals =>
           [ ({| CodeMirror.line := lineNumber - 1;
                 CodeMirror.ch := lineEnd (cm w) (lineNumber - 1) |},
              {| CodeMirror.tagName := "span";
                 CodeMirror.className := "flow-line-end flow-line-end-" +:+ kindOf partName;
                 CodeMirror.textContent := String.concat "; " (escaped <$> vals) |}) ]
       end)
  /\ (forall text, escapeNewLines text = escaped text)
  /\ (forall c steps,
        annotations c steps = annotations c (Detailed <$> detailedSteps steps)).
Proof.
  split; [|split; [exact escapeNewLines_escaped|]].
  - intros steps w w' partName lineNumber [Hlines ->]%render_Normal.
    rewrite created_spec, annotations_complete by done.
    rewrite filter_fragments by apply firstOccurrences_NoDup.
    destruct (decide (lineNumber ∈ detailedLines steps)) as [Hin|Hin].
    + apply linesExist_detailedLines in Hlines. rewrite Forall_forall in Hlines.
      destruct (Hlines _ Hin) as [text Htext].
      unfold fragment, lineEnd. rewrite Htext. reflexivity.
    + by rewrite fieldValues_absent.
  - intros c steps.
    assert (Hd : detailedSteps (Detailed <$> detailedSteps steps) = detailedSteps steps).
    { induction steps as [|[n|s] steps IH]; [reflexivity|exact IH|].
      simpl. f_equal. exact IH. }
    assert (Hv : forall p l, fieldValues p l (Detailed <$> detailedSteps steps)
                             = fieldValues p l steps).
    { intros p l. unfold fieldValues. clear Hd.
      induction steps as [|[n|s] steps IH]; [reflexivity|exact IH|].
      simpl. destruct (decide (line s = l)); [|exact IH].
      destruct (partOf p s) as [v|]; [|exact IH].
      destruct (decide (v = "")); [exact IH|]. f_equal. exact IH. }
    unfold annotations, detailedLines. rewrite Hd.
    apply list_bind_ext; [|reflexivity]. intros l.
    unfold fragment. by rewrite !Hv.
Qed.

Lemma C3_annotation_fragments_witness :
  List.filter (isFragment PartException 2)
    (created exampleWorld
       (renderExecutionFlow [Bare 1; Detailed exampleSkipped; Bare 3] exampleWorld).2)
  = [ ({| CodeMirror.line := 1; CodeMirror.ch := 2 |},
       {| CodeMirror.tagName := "span";
          CodeMirror.className := "flow-line-end flow-line-end-exception";
          CodeMirror.textContent := "boom" |}) ].
Proof.
  apply (proj1 C3_annotation_fragments
           [Bare 1; Detailed exampleSkipped; Bare 3] exampleWorld _ PartException 2).
  reflexivity.
Defined.

(** The two steps of line 7 of the specification's example, on a document
    of seven lines. *)
Example line7_notes :
  let nl := String LF EmptyString in
  CodeMirror.textContent <$>
    (snd <$> fragment
       {| CodeMirror.doc := [""; ""; ""; ""; ""; ""; "return x;"];
          CodeMirror.jumpArrowLayer := []; CodeMirror.markers := [] |}
       PartNotes 7
       [Detailed {| line := 7; skipped := false; notes := Some "a"; exception := None |};
        Detailed {| line := 7; skipped := false; notes := Some ("b" +:+ nl); exception := None |}])
  = ["a; b\n"].
Proof. reflexivity. Qed.
(** C9. For every step sequence the bookmarks are made in this order: line
    by line, the lines in the order in which a detailed step of theirs is
    first met in the input (up to the first line the document lacks, where
    the call throws), and for one line the notes fragment before the
    exception fragment; the handles are pushed in the same order. *)
Theorem C9_creation_order steps w :
  created w (renderExecutionFlow steps w).2
  = (l ← reached (cm w) (firstOccurrences (line <$> detailedSteps steps));
     fragment (cm w) PartNotes l steps ++ fragment (cm w) PartException l steps)
  /\ bookmarks (renderExecutionFlow steps w).2
     = seq (length (CodeMirror.markers (cm w)))
           (length (created w (renderExecutionFlow steps w).2)).
Proof.
  split; [apply created_spec|].
  rewrite created_spec, renderExecutionFlow_spec. reflexivity.
Qed.

(** C10. The renderer reads the text of the line of every detailed step,
    whatever the step carries: it throws exactly when some detailed step is
    on a line that the document does not have, and returns exactly when
    every such line exists. *)
Theorem C10_missing_line_throws steps w :
  ((renderExecutionFlow steps w).1 = TypeError
   <-> exists s, Detailed s ∈ steps /\ CodeMirror.getLine (cm w) (line s - 1) = None)
  /\ ((renderExecutionFlow steps w).1 = Normal tt <-> linesExist (cm w) steps).
Proof.
  rewrite renderExecutionFlow_spec. cbn [fst].
  destruct (decide (linesExist (cm w) steps)) as [Hall|Hnot].
  - split; [|done]. split; [discriminate|].
    intros [s [Hin Hnone]]. unfold linesExist in Hall.
    rewrite Forall_forall in Hall.
    destruct (Hall s) as [text Htext]; [by apply detailedSteps_elem|congruence].
  - split; [|split; [discriminate|done]]. split; [|done]. intros _.
    apply not_Forall_Exists in Hnot; [|apply _].
    apply Exists_exists in Hnot as [s [Hin Hs]].
    exists s. split; [by apply detailedSteps_elem|].
    simpl in Hs. destruct (CodeMirror.getLine (cm w) (line s - 1)); [|reflexivity].
    destruct Hs. by eexists.
Qed.

(** A step with neither notes nor exception, on a line the document lacks. *)
Example missing_line_throws :
  (renderExecutionFlow
     [Detailed {| line := 9; skipped := false; notes := None; exception := None |}]
     exampleWorld).1 = TypeError.
Proof. reflexivity. Qed.

(** C4. With no steps the renderer returns, having made no bookmark; it
    leaves an empty jump-arrow layer and an empty bookmark array, and every
    marker the array held is cleared (the others are as they were). *)
Theorem C4_empty_sequence w :
  renderExecutionFlow [] w
  = (Normal tt,
     {| cm := {| CodeMirror.doc := CodeMirror.doc (cm w);
                 CodeMirror.jumpArrowLayer := [];
                 CodeMirror.markers := clearAll (bookmarks w) (CodeMirror.markers (cm w)) |};
        bookmarks := [] |})
  /\ created w (renderExecutionFlow [] w).2 = []
  /\ (forall h : nat,
        CodeMirror.markers (cm (renderExecutionFlow [] w).2) !! h
        = if decide (h ∈ bookmarks w)
          then CodeMirror.clearMarker <$> CodeMirror.markers (cm w) !! h
          else CodeMirror.markers (cm w) !! h).
Proof.
  rewrite created_spec, renderExecutionFlow_spec. cbn [snd cm CodeMirror.markers].
  change (annotations (cm w) []) with (@nil (CodeMirror.Position * CodeMirror.Element)).
  rewrite app_nil_r. split; [reflexivity|]. split; [reflexivity|].
  intros h. apply clearAll_lookup.
Qed.

(** C5. Rendering the same steps a second time completes as the first time
    did and leaves the same decorations: the same arrows, the same visible
    bookmarks, and an array of as many handles, which name bookmarks equal
    to those of the first call. Nothing accumulates. *)
Theorem C5_idempotent steps w :
  (renderExecutionFlow steps (renderExecutionFlow steps w).2).1
  = (renderExecutionFlow steps w).1
  /\ CodeMirror.jumpArrowLayer (cm (renderExecutionFlow steps (renderExecutionFlow steps w).2).2)
     = CodeMirror.jumpArrowLayer (cm (renderExecutionFlow steps w).2)
  /\ CodeMirror.visible (cm (renderExecutionFlow steps (renderExecutionFlow steps w).2).2)
     = CodeMirror.visible (cm (renderExecutionFlow steps w).2)
  /\ created (renderExecutionFlow steps w).2
             (renderExecutionFlow steps (renderExecutionFlow steps w).2).2
     = created w (renderExecutionFlow steps w).2
  /\ length (bookmarks (renderExecutionFlow steps (renderExecutionFlow steps w).2).2)
     = length (bookmarks (renderExecutionFlow steps w).2).
Proof.
  rewrite !created_spec.
  rewrite (renderExecutionFlow_spec steps (renderExecutionFlow steps w).2).
  rewrite (renderExecutionFlow_spec steps w).
  cbn [fst snd cm bookmarks CodeMirror.doc CodeMirror.markers CodeMirror.jumpArrowLayer].
  set (c1 := {| CodeMirror.doc := CodeMirror.doc (cm w);
                CodeMirror.jumpArrowLayer := computeJumpArrows steps;
                CodeMirror.markers := _ |}).
  assert (Hdoc : CodeMirror.doc c1 = CodeMirror.doc (cm w)) by reflexivity.
  rewrite (annotations_doc c1 (cm w)) by done.
  split; [apply decide_ext; by apply linesExist_doc|].
  split; [reflexivity|]. split; [|split; [reflexivity|by rewrite !length_seq]].
  unfold CodeMirror.visible. simpl.
  set (old := clearAll (bookmarks w) (CodeMirror.markers (cm w))).
  set (new := newMarker <$> annotations (cm w) steps).
  replace (length (CodeMirror.markers (cm w))) with (length old)
    by apply clearAll_length.
  replace (length (annotations (cm w) steps)) with (length new)
    by apply length_fmap.
  rewrite clearAll_seq, !shown_app, shown_cleared, app_nil_r. reflexivity.
Qed.

(** * Proofs about the editor binding *)

Section Binding.
Import EditorBinding.

(** ** Proofs about the lazy connection *)

Lemma connectCalls_app a b :
  connectCalls (a ++ b) = (connectCalls a + connectCalls b)%nat.
Proof. unfold connectCalls. by rewrite List.filter_app, length_app. Qed.

Lemma run_cons st ev rest :
  run st (ev :: rest) =
  ((run (handle st ev).1 rest).1, (handle st ev).2 ++ (run (handle st ev).1 rest).2).
Proof.
  simpl. destruct (handle st ev) as [st1 calls1]. simpl.
  by destruct (run st1 rest) as [st2 calls2].
Qed.

(** Once the flag is set, no handler unsets it or calls [connect]. *)
Lemma handle_requested st ev :
  initialConnectionRequested st = true ->
  initialConnectionRequested (handle st ev).1 = true
  /\ connectCalls (handle st ev).2 = 0%nat.
Proof.
  intros Hreq. destruct ev; simpl; unfold connectIfInitialWasCached; simpl;
    rewrite ?Hreq; by split.
Qed.

Lemma run_requested st events :
  initialConnectionRequested st = true ->
  initialConnectionRequested (run st events).1 = true
  /\ connectCalls (run st events).2 = 0%nat.
Proof.
  revert st. induction events as [|ev rest IH]; intros st Hreq; [by split|].
  rewrite run_cons. cbn [fst snd].
  destruct (handle_requested st ev Hreq) as [Hreq1 Hcalls1].
  destruct (IH _ Hreq1) as [Hreq2 Hcalls2].
  split; [done|]. rewrite connectCalls_app. lia.
Qed.

Lemma handle_quiet st ev :
  isTrigger ev = false -> isServiceUrlChange ev = false ->
  (handle st ev).1 = st /\ existsb establishes (handle st ev).2 = false.
Proof. destruct ev; simpl; intros; by try discriminate. Qed.

Lemma run_quiet st events :
  quiet events ->
  (run st events).1 = st /\ existsb establishes (run st events).2 = false.
Proof.
  induction 1 as [|ev rest [Htrigger Hurl] _ IH]; [by split|].
  rewrite run_cons. cbn [fst snd].
  destruct (handle_quiet st ev Htrigger Hurl) as [-> Hcalls].
  destruct IH as [-> Hrest]. split; [done|].
  by rewrite existsb_app, Hcalls, Hrest.
Qed.

Lemma handle_trigger st ev :
  initialConnectionRequested st = false -> isTrigger ev = true ->
  connectCalls (handle st ev).2 = 1%nat
  /\ initialConnectionRequested (handle st ev).1 = true.
Proof.
  intros Hreq. destruct ev; simpl; try discriminate; intros _;
    unfold connectIfInitialWasCached; simpl; rewrite Hreq; by split.
Qed.

Lemma handle_serviceUrl st u :
  connectCalls (handle st (serviceUrlChanged u)).2 = 0%nat
  /\ existsb establishes (handle st (serviceUrlChanged u)).2 = true
  /\ initialConnectionRequested (handle st (serviceUrlChanged u)).1 = true.
Proof. by repeat split. Qed.

Lemma handle_connectCalls st ev :
  (connectCalls (handle st ev).2
   + (if initialConnectionRequested (handle st ev).1 then 0 else 1)
   <= if initialConnectionRequested st then 0 else 1)%nat.
Proof.
  destruct ev; destruct (initialConnectionRequested st) eqn:E;
    simpl; unfold connectIfInitialWasCached; simpl; rewrite ?E;
    unfold connectCalls; simpl; rewrite ?E; simpl; lia.
Qed.

Lemma run_connectCalls st events :
  (connectCalls (run st events).2
   <= if initialConnectionRequested st then 0 else 1)%nat.
Proof.
  revert st. induction events as [|ev rest IH]; intros st.
  - simpl. destruct (initialConnectionRequested st); unfold connectCalls; simpl; lia.
  - rewrite run_cons. cbn [snd]. rewrite connectCalls_app.
    pose proof (handle_connectCalls st ev). pose proof (IH (handle st ev).1). lia.
Qed.

(** C6, as the code has it. A component made with the initial-cached flag
    set makes its instance without a connection. Nothing connects while
    there is no edit and no change of language, server options or service
    URL. The first edit or change of language or server options then calls
    [connect] exactly once; a change of the service URL that comes first
    instead makes a new instance that connects by itself, with no call of
    [connect]. After either, no event calls [connect] again: the flag,
    once set, stays set, and [connect] is called at most once overall. *)
Theorem C6_lazy_connect props :
  Props.initialCached props = true ->
  (existsb establishes (mounted props).2 = false
   /\ initialConnectionRequested (mounted props).1 = false)
  /\ (forall pre, quiet pre ->
        (run (mounted props).1 pre).1 = (mounted props).1
        /\ existsb establishes (run (mounted props).1 pre).2 = false)
  /\ (forall pre ev, quiet pre -> isTrigger ev = true ->
        connectCalls (handle (run (mounted props).1 pre).1 ev).2 = 1%nat)
  /\ (forall pre u, quiet pre ->
        connectCalls (handle (run (mounted props).1 pre).1 (serviceUrlChanged u)).2 = 0%nat
        /\ existsb establishes
             (handle (run (mounted props).1 pre).1 (serviceUrlChanged u)).2 = true)
  /\ (forall pre ev post, quiet pre ->
        isTrigger ev = true \/ isServiceUrlChange ev = true ->
        connectCalls (run (handle (run (mounted props).1 pre).1 ev).1 post).2 = 0%nat)
  /\ (forall st ev, initialConnectionRequested st = true ->
        initialConnectionRequested (handle st ev).1 = true
        /\ connectCalls (handle st ev).2 = 0%nat)
  /\ (forall events, (connectCalls (run (mounted props).1 events).2 <= 1)%nat).
Proof.
  intros Hcached.
  assert (Hreq : initialConnectionRequested (mounted props).1 = false)
    by (simpl; by rewrite Hcached).
  split; [split; [simpl; by rewrite Hcached|exact Hreq]|].
  split; [intros pre Hq; by apply run_quiet|].
  split.
  { intros pre ev Hq Htrigger. rewrite (proj1 (run_quiet _ _ Hq)).
    by apply handle_trigger. }
  split; [intros pre u Hq; split; apply handle_serviceUrl|].
  split.
  { intros pre ev post Hq Hev. apply run_requested.
    rewrite (proj1 (run_quiet _ _ Hq)). destruct Hev as [Htrigger|Hurl].
    - by apply handle_trigger.
    - destruct ev; try discriminate. apply handle_serviceUrl. }
  split; [intros st ev Hst; by apply handle_requested|].
  intros events. pose proof (run_connectCalls (mounted props).1 events) as Hle.
  rewrite Hreq in Hle. exact Hle.
Qed.

Lemma C6_lazy_connect_witness :
  connectCalls
    (handle (run (mounted cachedProps).1 [cursorActivity; initialTextChanged "x"]).1
            (languageChanged "F#")).2 = 1%nat.
Proof.
  apply (proj1 (proj2 (proj2 (C6_lazy_connect cachedProps eq_refl)))).
  - repeat constructor.
  - reflexivity.
Defined.

(** The specification's wording of C6 fails when the service URL changes
    before the first edit: that change connects, and the edit that follows
    calls [connect] not once but never. *)
Lemma C6_service_url_first :
  existsb establishes
    (run (mounted cachedProps).1 [serviceUrlChanged "wss://other.example"]).2 = true
  /\ connectCalls
       (handle (run (mounted cachedProps).1 [serviceUrlChanged "wss://other.example"]).1
               (textChange (fun _ => "class D {}"))).2 = 0%nat
  /\ ~ lazyConnectAsStated cachedProps.
Proof.
  split; [reflexivity|]. split; [reflexivity|]. intros H.
  destruct (H [serviceUrlChanged "wss://other.example"]
              (textChange (fun _ => "class D {}"))) as [Hpre _].
  - repeat constructor.
  - reflexivity.
  - discriminate Hpre.
Qed.

(** ** Proofs about the notifications *)

(** C7, as the code has it. Each callback of the widget, and the cursor
    activity of the editor, is passed on by one [$emit] and nothing else is
    emitted: [slow-update-wait], [slow-update-result] with the result,
    [connection-change] with the state, [text-change] with the text
    accessor, [server-error] with the message and [cursor-move] with the
    offset accessor. *)
Theorem C7_events_forwarded st :
  emitted (handle st slowUpdateWait).2 = [("slow-update-wait", NoPayload)]
  /\ (forall result, emitted (handle st (slowUpdateResult result)).2
                     = [("slow-update-result", ResultValue result)])
  /\ (forall type, emitted (handle st (connectionChange type)).2
                   = [("connection-change", ConnectionState type)])
  /\ (forall getText, emitted (handle st (textChange getText)).2
                      = [("text-change", GetText getText)])
  /\ (forall message, emitted (handle st (serverError message)).2
                      = [("server-error", Message message)])
  /\ emitted (handle st cursorActivity).2 = [("cursor-move", GetCursorOffset)]
  /\ (forall ev, emitted (handle st ev).2 = [] \/ exists e, emitted (handle st ev).2 = [e]).
Proof.
  repeat split; try reflexivity.
  - intros getText. simpl. unfold connectIfInitialWasCached.
    by destruct (initialConnectionRequested st).
  - intros ev. destruct ev; simpl; unfold connectIfInitialWasCached; simpl;
      destruct (initialConnectionRequested st); simpl; eauto.
Qed.

(** A change of the connection state is not emitted under the name
    [connection-state-change]. *)
Lemma C7_connection_event_name :
  (emitted (handle (mounted cachedProps).1 (connectionChange "open")).2).*1
  = ["connection-change"]
  /\ "connection-state-change"
     ∉ (emitted (handle (mounted cachedProps).1 (connectionChange "open")).2).*1.
Proof.
  split; [reflexivity|]. simpl. intros [E|[]%elem_of_nil]%elem_of_cons. discriminate.
Qed.

End Binding.

(** * Further properties of the flow renderer *)

(** ** The arrow scan *)

Lemma arrowAt_length pre step : (length (arrowAt pre step) <= 1)%nat.
Proof.
  unfold arrowAt, arrowBetween. destruct (stepSkipped step); [simpl; lia|].
  destruct (last (retained pre)); [|simpl; lia].
  destruct (_ || _ || _); simpl; lia.
Qed.

(** X1. There is at most one arrow per transition between retained steps:
    a sequence with [n] retained steps gives at most [n - 1] arrows. *)
Theorem arrows_at_most_transitions steps :
  (length (computeJumpArrows steps) <= Nat.pred (length (retained steps)))%nat.
Proof.
  induction steps as [|step steps IH] using rev_ind; [simpl; lia|].
  rewrite computeJumpArrows_snoc, retained_snoc, !length_app.
  pose proof (arrowAt_length steps step) as Hone. unfold arrowAt in *.
  destruct (stepSkipped step); simpl in *; [lia|].
  destruct (retained steps) as [|r rs] eqn:E; simpl in *; [lia|].
  lia.
Qed.

(** X2. The exceptional arrows are as many as the retained steps that
    raised and are followed by another retained step. *)
Theorem exceptional_arrows_count steps :
  length (List.filter (fun arrow => throw (options arrow)) (computeJumpArrows steps))
  = length (List.filter (fun step => truthy (stepException step))
              (removelast (retained steps))).
Proof.
  induction steps as [|step steps IH] using rev_ind; [reflexivity|].
  rewrite computeJumpArrows_snoc, retained_snoc, List.filter_app, length_app, IH.
  unfold arrowAt. destruct (stepSkipped step).
  - by rewrite app_nil_r, Nat.add_0_r.
  - rewrite removelast_last.
    destruct (last (retained steps)) as [prev|] eqn:Hlast.
    + apply last_Some in Hlast as [rs ->].
      rewrite removelast_last, List.filter_app, length_app. f_equal.
      unfold arrowBetween. simpl.
      destruct (truthy (stepException prev)) eqn:Hexc.
      * rewrite !orb_true_r. reflexivity.
      * rewrite !orb_false_r. by destruct (_ || _).
    + apply last_None in Hlast. by rewrite Hlast.
Qed.

(** X3. The arrows of two sequences in a row are the arrows of the first,
    the arrow of the transition from the last retained step of the first to
    the first retained step of the second, and the arrows of the second. *)
Theorem arrows_of_concatenation before after :
  computeJumpArrows (before ++ after)
  = computeJumpArrows before
    ++ match last (retained before), head (retained after) with
       | Some prev, Some next => arrowBetween prev next
       | _, _ => []
       end
    ++ computeJumpArrows after.
Proof.
  induction after as [|step after IH] using rev_ind.
  - rewrite !app_nil_r. simpl. destruct (last (retained before)); by rewrite app_nil_r.
  - rewrite app_assoc, !computeJumpArrows_snoc, IH, <- !app_assoc. f_equal.
    unfold arrowAt. rewrite retained_snoc.
    assert (Hret : retained (before ++ after) = retained before ++ retained after)
      by apply List.filter_app.
    rewrite Hret, last_app.
    destruct (stepSkipped step); [by rewrite !app_nil_r|].
    destruct (retained after) as [|r rs] eqn:Hafter.
    + assert (Hnone : computeJumpArrows after = []).
      { unfold computeJumpArrows. by rewrite scan_retained, Hafter. }
      rewrite Hnone. simpl.
      destruct (last (retained before)) as [prev|]; simpl; by rewrite ?app_nil_r.
    + assert (Hsome : exists y, last (r :: rs) = Some y).
      { destruct (last (r :: rs)) eqn:El; [by eexists|]. by apply last_None in El. }
      destruct Hsome as [y Hy]. rewrite Hy. simpl.
      destruct (last (retained before)); reflexivity.
Qed.

(** ** The escaping of annotation text *)

Lemma hasNewLine_app s t : hasNewLine (s +:+ t) = hasNewLine s || hasNewLine t.
Proof.
  induction s as [|a s IH]; [reflexivity|].
  rewrite append_String. simpl. by rewrite IH, orb_assoc.
Qed.

Lemma escapeChar_clean a : hasNewLine (escapeChar a) = false.
Proof.
  unfold escapeChar. destruct (Ascii.eqb a CR) eqn:Ecr; [reflexivity|].
  destruct (Ascii.eqb a LF) eqn:Elf; [reflexivity|].
  simpl. unfold isNewLine. by rewrite Ecr, Elf.
Qed.

Lemma escaped_clean text : hasNewLine (escaped text) = false.
Proof.
  induction text as [|a text IH]; [reflexivity|].
  simpl. by rewrite hasNewLine_app, escapeChar_clean, IH.
Qed.

Lemma escaped_app s t : escaped (s +:+ t) = escaped s +:+ escaped t.
Proof.
  induction s as [|a s IH]; [reflexivity|].
  rewrite append_String. simpl. by rewrite IH, append_assoc.
Qed.

Lemma escaped_id text : hasNewLine text = false -> escaped text = text.
Proof.
  induction text as [|a text IH]; [reflexivity|].
  simpl. intros [Ha Hrest]%orb_false_elim. rewrite (IH Hrest).
  unfold isNewLine in Ha. apply orb_false_elim in Ha as [Ecr Elf].
  unfold escapeChar. by rewrite Ecr, Elf.
Qed.

Lemma length_append s t :
  String.length (s +:+ t) = (String.length s + String.length t)%nat.
Proof.
  induction s as [|a s IH]; [reflexivity|].
  rewrite append_String. simpl. by rewrite IH.
Qed.

(** X4. The escaped text holds no carriage return and no line feed. *)
Theorem escapeNewLines_single_line text : hasNewLine (escapeNewLines text) = false.
Proof. rewrite escapeNewLines_escaped. apply escaped_clean. Qed.

(** X5. Escaping goes through concatenation. *)
Theorem escapeNewLines_app s t :
  escapeNewLines (s +:+ t) = escapeNewLines s +:+ escapeNewLines t.
Proof. rewrite !escapeNewLines_escaped. apply escaped_app. Qed.

(** X6. A text without carriage return and line feed is left as it is. *)
Theorem escapeNewLines_clean_text text :
  hasNewLine text = false -> escapeNewLines text = text.
Proof. rewrite escapeNewLines_escaped. apply escaped_id. Qed.

Lemma escapeNewLines_clean_text_witness :
  escapeNewLines "x = a\b;" = "x = a\b;".
Proof. apply escapeNewLines_clean_text. reflexivity. Defined.

(** X7. Escaping twice is escaping once. *)
Theorem escapeNewLines_idempotent text :
  escapeNewLines (escapeNewLines text) = escapeNewLines text.
Proof.
  rewrite !escapeNewLines_escaped. apply escaped_id, escaped_clean.
Qed.

(** X8. Each carriage return and each line feed makes the text one
    character longer; nothing else changes its length. *)
Theorem escapeNewLines_length text :
  String.length (escapeNewLines text)
  = (String.length text + countNewLines text)%nat.
Proof.
  rewrite escapeNewLines_escaped.
  induction text as [|a text IH]; [reflexivity|].
  simpl. rewrite length_append, IH. unfold escapeChar, isNewLine.
  destruct (Ascii.eqb a CR); [simpl; lia|].
  destruct (Ascii.eqb a LF); simpl; lia.
Qed.

(** X9. The escaping cannot be undone: a backslash is not escaped, so a
    line feed and the two characters [\n] give the same text. *)
Theorem escapeNewLines_no_inverse :
  ~ exists decode : string -> string,
      forall text, decode (escapeNewLines text) = text.
Proof.
  intros [decode Hdecode].
  pose proof (Hdecode (String LF EmptyString)) as H1.
  pose proof (Hdecode "\n") as H2.
  change (escapeNewLines (String LF EmptyString)) with "\n" in H1.
  change (escapeNewLines "\n") with "\n" in H2.
  rewrite H1 in H2. discriminate H2.
Qed.

Lemma concat_clean sep parts :
  hasNewLine sep = false ->
  Forall (fun part => hasNewLine part = false) parts ->
  hasNewLine (String.concat sep parts) = false.
Proof.
  intros Hsep. induction 1 as [|part parts Hpart Hparts IH]; [reflexivity|].
  destruct parts as [|part' parts]; [exact Hpart|].
  change (String.concat sep (part :: part' :: parts))
    with (part +:+ sep +:+ String.concat sep (part' :: parts)).
  by rewrite !hasNewLine_app, Hpart, Hsep, IH.
Qed.

(** X10. Whatever the contents, the text of an annotation widget is on one
    line: it holds no carriage return and no line feed. *)
Theorem createFlowLineEndWidget_single_line contents kind :
  hasNewLine (CodeMirror.textContent (createFlowLineEndWidget contents kind)) = false.
Proof.
  unfold createFlowLineEndWidget. cbn [CodeMirror.textContent].
  apply concat_clean; [reflexivity|].
  apply Forall_fmap, Forall_forall. intros part _. simpl.
  rewrite escapeNewLines_escaped. apply escaped_clean.
Qed.

(** ** What a call of the renderer touches *)

Lemma fragment_length c partName l steps :
  (length (fragment c partName l steps) <= 1)%nat.
Proof.
  unfold fragment. destruct (fieldValues partName l steps); [simpl; lia|].
  destruct (CodeMirror.getLine c (l - 1)); simpl; lia.
Qed.

Lemma reached_length c lines : (length (reached c lines) <= length lines)%nat.
Proof.
  induction lines as [|l lines IH]; [reflexivity|].
  cbn [reached]. destruct (CodeMirror.getLine c (l - 1)); simpl; lia.
Qed.

Lemma annotations_elem c steps b :
  b ∈ annotations c steps ->
  exists partName l, l ∈ detailedLines steps /\ b ∈ fragment c partName l steps.
Proof.
  unfold annotations. intros [l [Hb Hl]]%list_elem_of_bind.
  assert (Hin : l ∈ detailedLines steps).
  { clear Hb. revert Hl. generalize (detailedLines steps). intros lines.
    induction lines as [|l' lines IH]; [by intros ?%elem_of_nil|].
    cbn [reached]. destruct (CodeMirror.getLine c (l' - 1)); [|by intros ?%elem_of_nil].
    intros [->|Hl]%elem_of_cons; [left|right; by apply IH]. }
  apply elem_of_app in Hb as [Hb|Hb]; eauto.
Qed.

Lemma fragment_elem c partName l steps b :
  b ∈ fragment c partName l steps ->
  exists vals text,
    fieldValues partName l steps = vals /\ vals <> []
    /\ CodeMirror.getLine c (l - 1) = Some text
    /\ b = ({| CodeMirror.line := l - 1; CodeMirror.ch := String.length text |},
            {| CodeMirror.tagName := "span";
               CodeMirror.className := "flow-line-end flow-line-end-" +:+ kindOf partName;
               CodeMirror.textContent := String.concat "; " (escaped <$> vals) |}).
Proof.
  unfold fragment. destruct (fieldValues partName l steps) as [|v vals] eqn:Hvals;
    [by intros ?%elem_of_nil|].
  destruct (CodeMirror.getLine c (l - 1)) as [text|]; [|by intros ?%elem_of_nil].
  intros ->%list_elem_of_singleton. by exists (v :: vals), text.
Qed.

Lemma escaped_nonempty text : text <> EmptyString -> escaped text <> EmptyString.
Proof.
  destruct text as [|a text]; [done|]. intros _. simpl. unfold escapeChar.
  destruct (Ascii.eqb a CR); [discriminate|].
  destruct (Ascii.eqb a LF); discriminate.
Qed.

Lemma concat_nonempty sep part parts :
  part <> EmptyString -> String.concat sep (part :: parts) <> EmptyString.
Proof.
  intros Hpart. destruct part as [|a part]; [done|].
  destruct parts; discriminate.
Qed.

(** X11. No annotation is ever empty: every bookmark a call makes carries
    a widget with some text. *)
Theorem created_text_nonempty steps w :
  Forall (fun b => CodeMirror.textContent b.2 <> EmptyString)
         (created w (renderExecutionFlow steps w).2).
Proof.
  rewrite created_spec. apply Forall_forall. intros b Hb.
  apply annotations_elem in Hb as (partName & l & _ & Hb).
  apply fragment_elem in Hb as (vals & text & Hvals & Hne & _ & ->).
  cbn [snd CodeMirror.textContent].
  destruct vals as [|v vals]; [done|]. rewrite fmap_cons.
  apply concat_nonempty, escaped_nonempty.
  assert (Hv : v ∈ fieldValues partName l steps) by (rewrite Hvals; left).
  apply list_elem_of_omap in Hv as [[n|s] [_ Hv]]; [discriminate|].
  simpl in Hv. destruct (decide (line s = l)); [|discriminate].
  destruct (partOf partName s) as [v'|]; [|discriminate].
  destruct (decide (v' = "")); [discriminate|]. by injection Hv as <-.
Qed.

(** X12. A call edits no text and clears no marker but those whose handles
    it finds in the array; it removes no marker, and adds only the
    bookmarks it makes. This holds also when the call throws. *)
Theorem render_touches_own_markers steps w :
  CodeMirror.doc (cm (renderExecutionFlow steps w).2) = CodeMirror.doc (cm w)
  /\ length (CodeMirror.markers (cm (renderExecutionFlow steps w).2))
     = (length (CodeMirror.markers (cm w))
        + length (created w (renderExecutionFlow steps w).2))%nat
  /\ (forall (h : nat) m,
        CodeMirror.markers (cm w) !! h = Some m ->
        CodeMirror.markers (cm (renderExecutionFlow steps w).2) !! h
        = Some (if decide (h ∈ bookmarks w) then CodeMirror.clearMarker m else m)).
Proof.
  rewrite created_spec, renderExecutionFlow_spec.
  cbn [snd cm CodeMirror.doc CodeMirror.markers].
  split; [reflexivity|]. split.
  - by rewrite length_app, clearAll_length, length_fmap.
  - intros h m Hm. rewrite lookup_app_l.
    + rewrite clearAll_lookup, Hm. by destruct (decide _).
    + rewrite clearAll_length. by eapply lookup_lt_Some.
Qed.

Lemma lookup_new_handles {A} (old new : list A) :
  (fun h : nat => (old ++ new) !! h) <$> seq (length old) (length new) = Some <$> new.
Proof.
  apply list_eq. intros i. rewrite !list_lookup_fmap.
  destruct (decide (i < length new)%nat) as [Hlt|Hge].
  - rewrite lookup_seq_lt by done. simpl.
    rewrite lookup_app_r by lia.
    replace (length old + i - length old)%nat with i by lia.
    destruct (lookup_lt_is_Some_2 new i Hlt) as [x ->]. reflexivity.
  - rewrite lookup_seq_ge by lia. by rewrite lookup_ge_None_2 by lia.
Qed.

(** X13. After a call the array holds, without repetition and in the order
    of creation, exactly the handles of the bookmarks the call made, none of
    them cleared. *)
Theorem bookmarks_name_created steps w :
  NoDup (bookmarks (renderExecutionFlow steps w).2)
  /\ (fun h : nat => CodeMirror.markers (cm (renderExecutionFlow steps w).2) !! h)
       <$> bookmarks (renderExecutionFlow steps w).2
     = (fun b => Some (newMarker b)) <$> created w (renderExecutionFlow steps w).2.
Proof.
  rewrite created_spec, renderExecutionFlow_spec. cbn [snd cm bookmarks CodeMirror.markers].
  split; [apply NoDup_seq|].
  rewrite <- (clearAll_length (bookmarks w) (CodeMirror.markers (cm w))).
  rewrite <- (length_fmap newMarker (annotations (cm w) steps)).
  rewrite lookup_new_handles. by rewrite <- list_fmap_compose.
Qed.

(** X14. Only the last call counts: rendering one sequence and then another
    leaves the arrows, the visible bookmarks and the completion that
    rendering the second alone would. *)
Theorem last_render_wins steps1 steps2 w :
  (renderExecutionFlow steps2 (renderExecutionFlow steps1 w).2).1
  = (renderExecutionFlow steps2 w).1
  /\ CodeMirror.jumpArrowLayer (cm (renderExecutionFlow steps2 (renderExecutionFlow steps1 w).2).2)
     = CodeMirror.jumpArrowLayer (cm (renderExecutionFlow steps2 w).2)
  /\ CodeMirror.visible (cm (renderExecutionFlow steps2 (renderExecutionFlow steps1 w).2).2)
     = CodeMirror.visible (cm (renderExecutionFlow steps2 w).2)
  /\ length (bookmarks (renderExecutionFlow steps2 (renderExecutionFlow steps1 w).2).2)
     = length (bookmarks (renderExecutionFlow steps2 w).2).
Proof.
  rewrite (renderExecutionFlow_spec steps2 (renderExecutionFlow steps1 w).2).
  rewrite (renderExecutionFlow_spec steps1 w), (renderExecutionFlow_spec steps2 w).
  cbn [fst snd cm bookmarks CodeMirror.doc CodeMirror.markers CodeMirror.jumpArrowLayer].
  set (c1 := {| CodeMirror.doc := CodeMirror.doc (cm w);
                CodeMirror.jumpArrowLayer := computeJumpArrows steps1;
                CodeMirror.markers := _ |}).
  assert (Hdoc : CodeMirror.doc c1 = CodeMirror.doc (cm w)) by reflexivity.
  rewrite (annotations_doc c1 (cm w)) by done.
  split; [apply decide_ext; by apply linesExist_doc|].
  split; [reflexivity|]. split; [|by rewrite !length_seq].
  unfold CodeMirror.visible. simpl.
  set (old := clearAll (bookmarks w) (CodeMirror.markers (cm w))).
  set (new := newMarker <$> annotations (cm w) steps1).
  replace (length (CodeMirror.markers (cm w))) with (length old)
    by apply clearAll_length.
  replace (length (annotations (cm w) steps1)) with (length new)
    by apply length_fmap.
  rewrite clearAll_seq, !shown_app, shown_cleared, app_nil_r. reflexivity.
Qed.

(** X15. Every bookmark a call makes sits at the end of a line that the
    document has. *)
Theorem created_at_line_ends steps w :
  Forall (fun b => String.length <$> CodeMirror.getLine (cm w) (CodeMirror.line b.1)
                   = Some (CodeMirror.ch b.1))
         (created w (renderExecutionFlow steps w).2).
Proof.
  rewrite created_spec. apply Forall_forall. intros b Hb.
  apply annotations_elem in Hb as (partName & l & _ & Hb).
  apply fragment_elem in Hb as (vals & text & _ & _ & Htext & ->).
  cbn [fst CodeMirror.line CodeMirror.ch]. by rewrite Htext.
Qed.

(** X16. A call makes at most two bookmarks for each line that carries a
    detailed step; in particular none when every step is a bare number. *)
Theorem created_at_most_two_per_line steps w :
  (length (created w (renderExecutionFlow steps w).2)
   <= 2 * length (detailedLines steps))%nat.
Proof.
  rewrite created_spec. unfold annotations.
  pose proof (reached_length (cm w) (detailedLines steps)) as Hreached.
  revert Hreached. generalize (reached (cm w) (detailedLines steps)).
  generalize (length (detailedLines steps)). intros n lines. revert n.
  induction lines as [|l lines IH]; intros n Hn; [simpl; lia|].
  rewrite bind_cons, !length_app. simpl in Hn.
  pose proof (fragment_length (cm w) PartNotes l steps).
  pose proof (fragment_length (cm w) PartException l steps).
  pose proof (IH (Nat.pred n) ltac:(lia)). lia.
Qed.

(** * Further properties of the editor binding *)

Section InstanceUse.
Import EditorBinding Lifecycle.

Lemma use_app live calls1 calls2 :
  use live (calls1 ++ calls2) = use live calls1 ≫= fun live' => use live' calls2.
Proof.
  revert live. induction calls1 as [|c calls1 IH]; intros live; [reflexivity|].
  simpl. destruct (useStep live c); [apply IH|reflexivity].
Qed.

(** Between two events there is one instance, asked to connect exactly when
    the flag says so. *)
Lemma use_handle st ev :
  use (Some (initialConnectionRequested st)) (handle st ev).2
  = Some (Some (initialConnectionRequested (handle st ev).1)).
Proof.
  destruct st as [[|] opts]; destruct ev; reflexivity.
Qed.

Lemma use_run st events :
  use (Some (initialConnectionRequested st)) (run st events).2
  = Some (Some (initialConnectionRequested (run st events).1)).
Proof.
  revert st. induction events as [|ev rest IH]; intros st; [reflexivity|].
  rewrite run_cons. cbn [fst snd]. rewrite use_app, use_handle. simpl. apply IH.
Qed.

(** X17. From [mounted] on, whatever the props and the events, the calls
    respect the life of the instance: there is never a second instance
    beside a live one, no call goes to an instance that was destroyed, and
    no instance is asked twice for a connection, be it at its creation or
    by [connect]. When [beforeDestroy] runs, the last instance is destroyed,
    also when the removal of the wrapper throws. *)
Theorem instance_used_in_order props events attached :
  use None ((mounted props).2 ++ (run (mounted props).1 events).2)
  = Some (Some (initialConnectionRequested (run (mounted props).1 events).1))
  /\ use None ((mounted props).2 ++ (run (mounted props).1 events).2
               ++ (beforeDestroy attached).1.1)
     = Some None.
Proof.
  assert (Hmount : use None (mounted props).2
                   = Some (Some (initialConnectionRequested (mounted props).1)))
    by reflexivity.
  split.
  - rewrite use_app, Hmount. exact (use_run (mounted props).1 events).
  - rewrite use_app, Hmount.
    change (use (Some (initialConnectionRequested (mounted props).1))
                ((run (mounted props).1 events).2 ++ (beforeDestroy attached).1.1)
            = Some None).
    by rewrite use_app, use_run.
Qed.

(** X18. A component made without the initial-cached flag makes an
    instance that connects at once, and never calls [connect]. *)
Theorem eager_never_calls_connect props :
  Props.initialCached props = false ->
  existsb establishes (mounted props).2 = true
  /\ forall events, connectCalls (run (mounted props).1 events).2 = 0%nat.
Proof.
  intros Heager. split; [simpl; by rewrite Heager|].
  intros events. apply run_requested. simpl. by rewrite Heager.
Qed.

Lemma eager_never_calls_connect_witness :
  existsb establishes (mounted eagerProps).2 = true
  /\ forall events, connectCalls (run (mounted eagerProps).1 events).2 = 0%nat.
Proof. apply eager_never_calls_connect. reflexivity. Defined.

Lemma run_options st events :
  language (options (run st events).1) = latestLanguage (language (options st)) events
  /\ initialServerOptions (options (run st events).1)
     = latestServerOptions (initialServerOptions (options st)) events
  /\ serviceUrl (options (run st events).1)
     = latestServiceUrl (serviceUrl (options st)) events.
Proof.
  revert st. induction events as [|ev rest IH]; intros st; [by repeat split|].
  rewrite run_cons. cbn [fst].
  destruct (IH (handle st ev).1) as (-> & -> & ->).
  unfold latestLanguage, latestServerOptions, latestServiceUrl. cbn [fold_left].
  destruct st as [[|] opts]; destruct ev; by repeat split.
Qed.

(** X19. The changes of language and of server options are not lost when
    the service URL changes: the instance is destroyed, keeping the editor,
    and the new one is made for the new URL with the language and the
    server options of the latest change (those of the props when there was
    none), and it connects at once. *)
Theorem recreate_keeps_latest_options props pre u :
  (handle (run (mounted props).1 pre).1 (serviceUrlChanged u)).2
  = [Destroy true;
     Create {| serviceUrl := u;
               language := latestLanguage (Props.language props) pre;
               initialServerOptions := latestServerOptions (Props.serverOptions props) pre;
               noInitialConnection := false |}].
Proof.
  destruct (run_options (mounted props).1 pre) as (Hlanguage & Hoptions & _).
  simpl in *. by rewrite Hlanguage, Hoptions.
Qed.

End InstanceUse.

(** * Properties of the highlight *)

Section HighlightProofs.
Import Highlight.
Variable posFromIndex : Z -> CodeMirror.Position.

Lemma live_app ms1 ms2 : live (ms1 ++ ms2) = live ms1 ++ live ms2.
Proof. apply List.filter_app. Qed.

(** The state after a sequence of changes of the range: the marker of the
    last range is the last of the heap and the current one; every marker made
    before it is cleared. *)
Lemma watcher_state marks0 (updates : list (option HighlightedRange)) :
  exists base,
    live base = live marks0
    /\ fold_left (highlightedRangeWatcher posFromIndex) updates
         {| marks := marks0; currentMarker := None |}
       = match last updates with
         | Some (Some r) =>
             {| marks := base ++ [highlighted posFromIndex r];
                currentMarker := Some (length base) |}
         | _ => {| marks := base; currentMarker := None |}
         end.
Proof.
  induction updates as [|u updates IH] using rev_ind; [by exists marks0|].
  destruct IH as (base & Hlive & Hstate).
  rewrite fold_left_app, Hstate, last_snoc. cbn [fold_left].
  assert (Hcleared : exists base',
    live base' = live marks0
    /\ (match currentMarker
              match last updates with
              | Some (Some r) =>
                  {| marks := base ++ [highlighted posFromIndex r];
                     currentMarker := Some (length base) |}
              | _ => {| marks := base; currentMarker := None |}
              end
        with
        | Some h => {| marks := alter clearMarker h
                                  (marks match last updates with
                                         | Some (Some r) =>
                                             {| marks := base ++ [highlighted posFromIndex r];
                                                currentMarker := Some (length base) |}
                                         | _ => {| marks := base; currentMarker := None |}
                                         end);
                       currentMarker := None |}
        | None => match last updates with
                  | Some (Some r) =>
                      {| marks := base ++ [highlighted posFromIndex r];
                         currentMarker := Some (length base) |}
                  | _ => {| marks := base; currentMarker := None |}
                  end
        end) = {| marks := base'; currentMarker := None |}).
  { destruct (last updates) as [[r|]|]; cbn [currentMarker marks].
    - exists (base ++ [clearMarker (highlighted posFromIndex r)]). split.
      + rewrite live_app, Hlive. simpl. by rewrite app_nil_r.
      + rewrite <- (Nat.add_0_r (length base)) at 1. by rewrite alter_app_r.
    - by exists base.
    - by exists base. }
  destruct Hcleared as (base' & Hlive' & Hst1).
  exists base'. split; [done|].
  unfold highlightedRangeWatcher. rewrite Hst1. by destruct u.
Qed.

(** X20. However the range changed since [mounted], at most one highlight
    is drawn: the markers that are live are those that were there before,
    and the marker of the last range if the last change gave one. A start or
    end given as an offset goes through [cm.posFromIndex], one given as a
    position is used as it is, each on its own. *)
Theorem one_highlight_at_most marks0 (updates : list (option HighlightedRange)) :
  live (marks (fold_left (highlightedRangeWatcher posFromIndex) updates
                 {| marks := marks0; currentMarker := None |}))
  = live marks0
    ++ match last updates with
       | Some (Some r) =>
           [ {| from := match start r with At pos => pos | Offset i => posFromIndex i end;
                to := match end_ r with At pos => pos | Offset i => posFromIndex i end;
                className := "highlighted";
                cleared := false |} ]
       | _ => []
       end.
Proof.
  destruct (watcher_state marks0 updates) as (base & Hlive & ->).
  destruct (last updates) as [[r|]|]; cbn [marks].
  - by rewrite live_app, Hlive.
  - by rewrite Hlive, app_nil_r.
  - by rewrite Hlive, app_nil_r.
Qed.

End HighlightProofs.
